(** * urlfetcher: the job registry, work queue and response cache of
    [urldata/urldata.go], embedded as pure functions over an explicit
    program state, with the properties of its fetch-or-cache-hit
    procedure. *)

From Stdlib Require Import ZArith QArith Lia.
From stdpp Require Import base gmap strings list sorting.

Local Open Scope string_scope.
Local Open Scope list_scope.
Local Open Scope Z_scope.

(** ** 64-bit integers *)

(** Go's [int64] arithmetic wraps around in two's complement. *)
Definition minInt64 : Z := - 2 ^ 63.
Definition maxInt64 : Z := 2 ^ 63 - 1.

Definition wrap64 (z : Z) : Z := (z + 2 ^ 63) mod 2 ^ 64 - 2 ^ 63.

(** [atomic.AddInt64(&addr, delta)]: the new value, which is also stored. *)
Definition AddInt64 (cur delta : Z) : Z := wrap64 (cur + delta).

(** ** Package [time], as far as [doJob] uses it *)

Module time.

(** A [time.Time] obtained from [time.Now()] carries a monotonic clock
    reading, and [Sub] of two such values is the difference of the
    readings: a time is its reading, in nanoseconds. *)
Definition Time : Type := Z.

(** [time.Duration] is an [int64] count of nanoseconds. *)
Definition Duration : Type := Z.

Definition Minute : Z := 60 * 1000000000.
Definition Hour : Z := 60 * Minute.

(** [t.Sub(u)]: the difference, saturated to the range of [Duration]. *)
Definition Sub (t u : Time) : Duration :=
  if t - u <? minInt64 then minInt64
  else if maxInt64 <? t - u then maxInt64
  else t - u.

(** [d.Hours()]:
    [hour := d / Hour; nsec := d % Hour;
     return float64(hour) + float64(nsec)/(60*60*1e9)].
    Go's [/] and [%] truncate toward zero. The value is taken as a
    rational: both conversions are exact on this range and the rounding
    of the quotient never crosses [1.0], the only value it is compared
    with. *)
Definition Hours (d : Duration) : Q :=
  (inject_Z (Z.quot d Hour) + Qmake (Z.rem d Hour) 3600000000000)%Q.

End time.

(** [x < y] on the rationals, as a boolean. *)
Definition Qltb (x y : Q) : bool := negb (Qle_bool y x).

(** ** Data model *)

(** A [*Response]: the address of a Response object in the store. *)
Definition ptr : Type := nat.

Module Response.
Record t : Type := mk {
  URL : string;
  Body : string;
  Timestamp : time.Time
}.
End Response.

Module Job.
Record t : Type := mk {
  ID : Z;
  URL : string;
  Status : string;
  Response : option ptr   (* [None] is the nil pointer *)
}.

Definition setStatus (st : string) (j : t) : t :=
  mk (ID j) (URL j) st (Response j).

Definition setResponse (r : option ptr) (j : t) : t :=
  mk (ID j) (URL j) (Status j) r.
End Job.

(** The package's global state. [jobQueue] is the content of the buffered
    channel, oldest element first. [jobs] maps an identifier to the Job
    object its pointer designates: every [*Job] in the map is the address of
    a variable of one [AddJob] call, reachable through the map only, so the
    object stands for its pointer. Response objects are shared between the
    cache and the jobs: they live in [heap], a [*Response] is an index into
    it, and allocation appends. *)
Record State : Type := mkState {
  jobQueue : list Z;
  jobs : gmap Z Job.t;
  responses : gmap string ptr;
  curJobID : Z;
  heap : list Response.t
}.

(** [make(chan int64, 1000)] *)
Definition jobQueueCap : nat := 1000.

Definition init : State :=
  {| jobQueue := []; jobs := ∅; responses := ∅; curJobID := 0; heap := [] |}.

Definition setQueue (q : list Z) (s : State) : State :=
  mkState q (jobs s) (responses s) (curJobID s) (heap s).

(** A write through the pointer [jobs[jobID]]. *)
Definition updJob (jobID : Z) (f : Job.t -> Job.t) (s : State) : State :=
  mkState (jobQueue s) (alter f jobID (jobs s)) (responses s) (curJobID s)
          (heap s).

(** [&Response{...}]: a new object, at the end of the store. *)
Definition alloc (r : Response.t) (s : State) : ptr * State :=
  (length (heap s),
   mkState (jobQueue s) (jobs s) (responses s) (curJobID s) (heap s ++ [r])).

(** [responses[url] = p] *)
Definition publish (url : string) (p : ptr) (s : State) : State :=
  mkState (jobQueue s) (jobs s) (<[url := p]> (responses s)) (curJobID s)
          (heap s).

(** ** Submission and queries *)

(** [AddJob(url)] as one step: a call during which no other goroutine
    runs. The send on the channel blocks while the channel holds
    [jobQueueCap] identifiers: [None] is a call that cannot be completed in
    one step from [s]. The call in its three steps, with the rounds of the
    workers between them, is [AddJob_register], [AddJob_send] and
    [AddJob_return] below. *)
Definition AddJob (url : string) (s : State) : option (Job.t * State) :=
  let jobID := AddInt64 (curJobID s) 1 in
  let job := Job.mk jobID url "waiting" None in
  if decide (length (jobQueue s) < jobQueueCap)%nat then
    Some (job,
          mkState (jobQueue s ++ [Job.ID job]) (<[jobID := job]> (jobs s))
                  (responses s) jobID (heap s))
  else None.

Definition GetJob (id : Z) (s : State) : option Job.t := jobs s !! id.

Definition GetResponse (url : string) (s : State) : option ptr :=
  responses s !! url.

(** ** The environment of one [doJob] call *)

(** What the network answers to [http.Get(url)] followed by
    [ioutil.ReadAll(resp.Body)], when it answers. [ReadAll] returns the
    bytes it has read also when it fails. A GET that never returns is no
    value of this type: a round of a worker is a round that ends. *)
Inductive GetResult : Type :=
| GetErr                                    (* [http.Get]: [err != nil] *)
| GetOk (body : string) (readErr : bool).   (* [ReadAll]: [body], [err != nil] iff [readErr] *)

(** The clock at the cache check, the network, and the clock when the
    Response is built. *)
Record World : Type := mkWorld {
  nowCheck : time.Time;
  httpGet : string -> GetResult;
  nowFetch : time.Time
}.

(** What a call does besides changing the state, in program order. *)
Inductive Event : Type :=
| EvStatus (jobID : Z) (status : string)   (* a write to [job.Status] *)
| EvGet (url : string)                     (* a call of [http.Get] *)
| EvReadAll (url : string).                (* a call of [ioutil.ReadAll] *)

Inductive Outcome : Type :=
| Returned (s : State) (tr : list Event)
| Panicked.                                (* nil pointer dereference *)

(** ** The fetch-or-cache-hit procedure *)

(** [ok && time.Now().Sub(response.Timestamp).Hours() < 1.0] for the cache
    entry [p] of the job's URL. *)
Definition fresh (w : World) (r : Response.t) : bool :=
  Qltb (time.Hours (time.Sub (nowCheck w) (Response.Timestamp r))) 1.

(** The [else] branch of [doJob], for the job [job] registered under
    [jobID]. *)
Definition doFetch (w : World) (jobID : Z) (job : Job.t) (s : State)
  : Outcome :=
  let s := updJob jobID (Job.setStatus "fetching") s in
  match httpGet w (Job.URL job) with
  | GetErr =>
      let s := updJob jobID (Job.setResponse None) s in
      let s := updJob jobID (Job.setStatus "error - error with GET") s in
      Returned s [EvStatus jobID "fetching"; EvGet (Job.URL job);
                  EvStatus jobID "error - error with GET"]
  | GetOk body readErr =>
      (* [if err != nil { job.Response = nil; job.Status = ... }]: the
         branch has no [return], the code below runs in both cases *)
      let s :=
        if readErr then
          updJob jobID (Job.setStatus "error - error reading body")
                 (updJob jobID (Job.setResponse None) s)
        else s in
      let '(response, s) :=
        alloc (Response.mk (Job.URL job) body (nowFetch w)) s in
      let s := publish (Job.URL job) response s in
      let s := updJob jobID (Job.setResponse (Some response)) s in
      let s := updJob jobID (Job.setStatus "done") s in
      Returned s
        ([EvStatus jobID "fetching"; EvGet (Job.URL job);
          EvReadAll (Job.URL job)]
         ++ (if readErr then [EvStatus jobID "error - error reading body"]
             else [])
         ++ [EvStatus jobID "done"])
  end.

Definition doJob (w : World) (jobID : Z) (s : State) : Outcome :=
  match jobs s !! jobID with
  | None => Panicked          (* [job] is nil and [job.URL] is read *)
  | Some job =>
      match responses s !! Job.URL job with
      | Some response =>
          match heap s !! response with
          | None => Panicked  (* no [*Response] of the program dangles *)
          | Some r =>
              if fresh w r then
                let s := updJob jobID (Job.setResponse (Some response)) s in
                let s := updJob jobID (Job.setStatus "done - cached") s in
                Returned s [EvStatus jobID "done - cached"]
              else doFetch w jobID job s
          end
      | None => doFetch w jobID job s
      end
  end.

(** ** The worker loop and executions of the whole program *)

Inductive WorkerStep : Type :=
| WNext (s : State) (tr : list Event)   (* back at the head of the loop *)
| WBlocked                              (* the receive waits: channel empty *)
| WCrashed.                             (* [doJob] panicked: the process dies *)

(** One round of the loop [for { jobID := <-jobQueue; doJob(jobID) }] of
    [fetchWorker]. *)
Definition fetchWorker (w : World) (s : State) : WorkerStep :=
  match jobQueue s with
  | [] => WBlocked
  | jobID :: rest =>
      match doJob w jobID (setQueue rest s) with
      | Returned s' tr => WNext s' tr
      | Panicked => WCrashed
      end
  end.

(** The steps of the program: a call of [AddJob] that returns, or a round
    of a worker. *)
Inductive Action : Type :=
| Submit (url : string)
| Work (w : World).

(** A step yields the Job [AddJob] returned, if it was a submission, and the
    next state; [None] when the step blocks or the process dies. *)
Definition exec (a : Action) (s : State) : option (list Job.t * State) :=
  match a with
  | Submit url =>
      match AddJob url s with
      | Some (job, s') => Some ([job], s')
      | None => None
      end
  | Work w =>
      match fetchWorker w s with
      | WNext s' _ => Some ([], s')
      | _ => None
      end
  end.

(** An execution: the Jobs returned by its submissions, in call order, and
    its last state. *)
Fixpoint run (acts : list Action) (s : State) : option (list Job.t * State) :=
  match acts with
  | [] => Some ([], s)
  | a :: acts' =>
      match exec a s with
      | Some (js, s') =>
          match run acts' s' with
          | Some (js', s'') => Some (js ++ js', s'')
          | None => None
          end
      | None => None
      end
  end.

(** The states between the steps of such executions. A state in which a
    worker is inside [doJob] is none of them. *)
Definition reachable (s : State) : Prop :=
  exists acts js, run acts init = Some (js, s).

(** ** [AddJob] step by step *)

(** Lines 150-157 of [AddJob]: the counter, the Job, and its registration.
    The variable [job] of the call is the object that [jobs[jobID]]
    designates from now on. *)
Definition AddJob_register (url : string) (s : State) : Z * State :=
  let jobID := AddInt64 (curJobID s) 1 in
  let job := Job.mk jobID url "waiting" None in
  (jobID,
   mkState (jobQueue s) (<[jobID := job]> (jobs s)) (responses s) jobID
           (heap s)).

(** Line 159, [jobQueue <- job.ID], of the call that registered [jobID]:
    [None] while the channel is full. *)
Definition AddJob_send (jobID : Z) (s : State) : option State :=
  match jobs s !! jobID with
  | Some job =>
      if decide (length (jobQueue s) < jobQueueCap)%nat
      then Some (setQueue (jobQueue s ++ [Job.ID job]) s)
      else None
  | None => None
  end.

(** Line 160, [return job]: a copy of the variable as it is then. *)
Definition AddJob_return (jobID : Z) (s : State) : option Job.t :=
  jobs s !! jobID.

(** The program with one goroutine that calls [AddJob] again and again:
    the state, and the call in progress, if any, with the identifier it has
    registered and whether it has sent it. *)
Record Sys : Type := mkSys {
  st : State;
  call : option (Z * bool)
}.

Definition sinit : Sys := mkSys init None.

Inductive Step : Type :=
| SRegister (url : string)   (* a call of [AddJob] starts and registers *)
| SSend                      (* it sends the identifier *)
| SReturn                    (* it returns *)
| SWork (w : World).         (* a round of a worker *)

(** A step yields the Job that [AddJob] returns, if it is a return;
    [None] when the step cannot be taken. *)
Definition sstep (a : Step) (sys : Sys) : option (list Job.t * Sys) :=
  match a, call sys with
  | SRegister url, None =>
      let '(jobID, s1) := AddJob_register url (st sys) in
      Some ([], mkSys s1 (Some (jobID, false)))
  | SSend, Some (jobID, false) =>
      match AddJob_send jobID (st sys) with
      | Some s1 => Some ([], mkSys s1 (Some (jobID, true)))
      | None => None
      end
  | SReturn, Some (jobID, true) =>
      match AddJob_return jobID (st sys) with
      | Some job => Some ([job], mkSys (st sys) None)
      | None => None
      end
  | SWork w, _ =>
      match exec (Work w) (st sys) with
      | Some (_, s1) => Some ([], mkSys s1 (call sys))
      | None => None
      end
  | _, _ => None
  end.

Fixpoint srun (steps : list Step) (sys : Sys) : option (list Job.t * Sys) :=
  match steps with
  | [] => Some ([], sys)
  | a :: steps' =>
      match sstep a sys with
      | Some (js, sys') =>
          match srun steps' sys' with
          | Some (js', sys'') => Some (js ++ js', sys'')
          | None => None
          end
      | None => None
      end
  end.

(** The calls of [AddJob] that have registered in an execution. *)
Fixpoint registers (steps : list Step) : nat :=
  match steps with
  | [] => O
  | SRegister _ :: steps' => S (registers steps')
  | _ :: steps' => registers steps'
  end.


(** ** Status values *)

(** The five status values of the job state machine, and the one each
    string that the code writes stands for. *)
Inductive StatusKind : Type :=
| Waiting | Fetching | Done | DoneCached | Error.

Definition status_kind (st : string) : option StatusKind :=
  if decide (st = "waiting") then Some Waiting
  else if decide (st = "fetching") then Some Fetching
  else if decide (st = "done") then Some Done
  else if decide (st = "done - cached") then Some DoneCached
  else if decide (st = "error - error with GET") then Some Error
  else if decide (st = "error - error reading body") then Some Error
  else None.

Definition terminal (k : StatusKind) : bool :=
  match k with
  | Done | DoneCached | Error => true
  | Waiting | Fetching => false
  end.

#[global] Instance StatusKind_eq_dec : EqDecision StatusKind.
Proof. solve_decision. Defined.

(** The three paths of the state machine. *)
Definition statusPaths : list (list StatusKind) :=
  [ [Waiting; Fetching; Done];
    [Waiting; Fetching; Error];
    [Waiting; DoneCached] ].

Definition allowedPath (path : list StatusKind) : bool :=
  bool_decide (Exists (fun full => path `prefix_of` full) statusPaths).

(** No status follows a terminal one. *)
Fixpoint terminalIsLast (path : list StatusKind) : bool :=
  match path with
  | [] => true
  | k :: rest =>
      (if terminal k then bool_decide (rest = []) else true)
      && terminalIsLast rest
  end.

(** The status values written to job [jobID] by a call, in order. *)
Fixpoint statusWrites (jobID : Z) (tr : list Event) : list string :=
  match tr with
  | [] => []
  | EvStatus id st :: tr' =>
      if decide (id = jobID) then st :: statusWrites jobID tr'
      else statusWrites jobID tr'
  | _ :: tr' => statusWrites jobID tr'
  end.

(** The calls of [http.Get] in a trace. *)
Fixpoint gets (tr : list Event) : list string :=
  match tr with
  | [] => []
  | EvGet url :: tr' => url :: gets tr'
  | _ :: tr' => gets tr'
  end.

(** ** Auxiliary notions of the statements *)

(** The cache does not serve [url]: no entry, or a stale one. *)
Definition mustFetch (w : World) (s : State) (url : string) : bool :=
  match responses s !! url with
  | None => true
  | Some p =>
      match heap s !! p with
      | Some r => negb (fresh w r)
      | None => false
      end
  end.

(** The state after the writes of a call: the job's record, the cache and
    the store of Response objects. *)
Definition written (s : State) (jobID : Z) (job : Job.t)
    (cache : gmap string ptr) (h : list Response.t) : State :=
  mkState (jobQueue s) (<[jobID := job]> (jobs s)) cache (curJobID s) h.

(** The two shapes of the state after a call of [doJob] that returns. *)
Inductive doJobResult (w : World) (s : State) (jobID : Z) (job : Job.t)
  : State -> Prop :=
| ResKeep (job' : Job.t) :
    doJobResult w s jobID job
      (written s jobID job' (responses s) (heap s))
| ResPublish (job' : Job.t) (body : string) :
    doJobResult w s jobID job
      (written s jobID job'
         (<[Job.URL job := length (heap s)]> (responses s))
         (heap s ++ [Response.mk (Job.URL job) body (nowFetch w)])).

(** The job is finished from the cache entry [p]: one status write, no
    network call, cache and store as before, and the very pointer [p] as the
    job's result. *)
Definition servedFromCache (w : World) (s : State) (jobID : Z) (job : Job.t)
    (p : ptr) : Prop :=
  exists s' tr,
    doJob w jobID s = Returned s' tr /\
    tr = [EvStatus jobID "done - cached"] /\
    gets tr = [] /\
    jobs s' !! jobID =
      Some (Job.mk (Job.ID job) (Job.URL job) "done - cached" (Some p)) /\
    status_kind "done - cached" = Some DoneCached /\
    responses s' = responses s /\
    heap s' = heap s.

(** The job is finished by one GET whose body [body] becomes a Response
    object at a new address [p'], different from the cached [p], which
    stays in the store as it was. *)
Definition fetchedAfresh (w : World) (s : State) (jobID : Z) (job : Job.t)
    (p : ptr) (body : string) : Prop :=
  exists s' tr p',
    doJob w jobID s = Returned s' tr /\
    gets tr = [Job.URL job] /\
    p' <> p /\
    heap s !! p' = None /\
    heap s' !! p' = Some (Response.mk (Job.URL job) body (nowFetch w)) /\
    heap s' !! p = heap s !! p /\
    GetResponse (Job.URL job) s' = Some p' /\
    jobs s' !! jobID =
      Some (Job.mk (Job.ID job) (Job.URL job) "done" (Some p')).

(** ** Invariants of the program state *)

(** Every identifier in the channel is registered. *)
Definition queueRegistered (s : State) : Prop :=
  forall id : Z, id ∈ jobQueue s -> is_Some (jobs s !! id).

(** Every cache entry designates an object of the store, whose URL is the
    key of the entry. *)
Definition cacheOK (s : State) : Prop :=
  forall (u : string) (p : ptr),
    responses s !! u = Some p ->
    exists r, heap s !! p = Some r /\ Response.URL r = u.

Definition inv (s : State) : Prop := queueRegistered s /\ cacheOK s.

(** ** Concrete states and environments *)

Definition exampleURL : string := "http://example.test/a".

(** The state once [AddJob(exampleURL)] has returned in [init]. *)
Definition submitted : State :=
  {| jobQueue := [1];
     jobs := {[ 1 := Job.mk 1 exampleURL "waiting" None ]};
     responses := ∅;
     curJobID := 1;
     heap := [] |}.

(** The state once a worker has fetched [exampleURL] with body ["X"] at
    time [t] for job 1, and a second job for it waits in the channel. *)
Definition fetched (t : time.Time) : State :=
  {| jobQueue := [2];
     jobs := <[ 2 := Job.mk 2 exampleURL "waiting" None ]>
             {[ 1 := Job.mk 1 exampleURL "done" (Some 0%nat) ]};
     responses := {[ exampleURL := 0%nat ]};
     curJobID := 2;
     heap := [Response.mk exampleURL "X" t] |}.

(** The network refuses every connection. *)
Definition netDown (t : time.Time) : World :=
  {| nowCheck := t; httpGet := fun _ => GetErr; nowFetch := t |}.

(** Every GET succeeds with body [body]; the Response is built at [t']. *)
Definition netUp (body : string) (t t' : time.Time) : World :=
  {| nowCheck := t; httpGet := fun _ => GetOk body false; nowFetch := t' |}.

(** Every GET connects, and the body breaks off after [body]. *)
Definition netCut (body : string) (t t' : time.Time) : World :=
  {| nowCheck := t; httpGet := fun _ => GetOk body true; nowFetch := t' |}.

(** [n] submissions, each one followed by the round of a worker that finds
    the network down. *)
Fixpoint cycles (n : nat) : list Action :=
  match n with
  | O => []
  | S n' => Submit exampleURL :: Work (netDown 0) :: cycles n'
  end.

(** The state once [AddJob(exampleURL)] has returned twice in [init]. *)
Definition submittedTwice : State :=
  {| jobQueue := [1; 2];
     jobs := <[ 2 := Job.mk 2 exampleURL "waiting" None ]>
             {[ 1 := Job.mk 1 exampleURL "waiting" None ]};
     responses := ∅;
     curJobID := 2;
     heap := [] |}.

(** The state once a worker has served job 2 of [fetched 5] from the
    cache. *)
Definition served : State :=
  written (setQueue [] (fetched 5)) 2
    (Job.mk 2 exampleURL "done - cached" (Some 0%nat))
    (responses (fetched 5)) (heap (fetched 5)).

(** ** Listings *)

(** [GetJobs()]: the Jobs of the registry, collected by a [range] over the
    map. Go visits the keys of a map in an order it does not specify: the
    list below is one such order, and what is proved about it holds for
    every order. *)
Definition GetJobs (s : State) : list Job.t := (map_to_list (jobs s)).*2.

(** [GetResponses()]: the pointers of the cache, collected the same way. *)
Definition GetResponses (s : State) : list ptr :=
  (map_to_list (responses s)).*2.

(** ** The first version of the fetch procedure *)

(** The [doJob] of the first version of the package: no cache check, and
    [log.Fatal] on both errors, which prints and exits the process. *)
Module V0.

Inductive Outcome : Type :=
| Returned (s : State) (tr : list Event)
| Fatal (tr : list Event)                  (* [log.Fatal(err)] *)
| Panicked.                                (* nil pointer dereference *)

Definition doJob (w : World) (jobID : Z) (s : State) : Outcome :=
  match jobs s !! jobID with
  | None => Panicked
  | Some job =>
      let s := updJob jobID (Job.setStatus "fetching") s in
      match httpGet w (Job.URL job) with
      | GetErr => Fatal [EvStatus jobID "fetching"; EvGet (Job.URL job)]
      | GetOk body true =>
          Fatal [EvStatus jobID "fetching"; EvGet (Job.URL job);
                 EvReadAll (Job.URL job)]
      | GetOk body false =>
          let '(response, s) :=
            alloc (Response.mk (Job.URL job) body (nowFetch w)) s in
          let s := publish (Job.URL job) response s in
          let s := updJob jobID (Job.setResponse (Some response)) s in
          let s := updJob jobID (Job.setStatus "done") s in
          Returned s [EvStatus jobID "fetching"; EvGet (Job.URL job);
                      EvReadAll (Job.URL job); EvStatus jobID "done"]
      end
  end.

End V0.

(** ** Notions of the further properties *)


(** The three ways in which a call of [doJob] for the registered job [job]
    returns: served from the cache, failed GET, GET that connected. *)
Inductive doJobCase (w : World) (s : State) (jobID : Z) (job : Job.t)
  : State -> list Event -> Prop :=
| CaseHit (p : ptr) (r : Response.t) :
    responses s !! Job.URL job = Some p ->
    heap s !! p = Some r ->
    fresh w r = true ->
    doJobCase w s jobID job
      (written s jobID
         (Job.mk (Job.ID job) (Job.URL job) "done - cached" (Some p))
         (responses s) (heap s))
      [EvStatus jobID "done - cached"]
| CaseGetErr :
    mustFetch w s (Job.URL job) = true ->
    httpGet w (Job.URL job) = GetErr ->
    doJobCase w s jobID job
      (written s jobID
         (Job.mk (Job.ID job) (Job.URL job) "error - error with GET" None)
         (responses s) (heap s))
      [EvStatus jobID "fetching"; EvGet (Job.URL job);
       EvStatus jobID "error - error with GET"]
| CaseGetOk (body : string) (readErr : bool) :
    mustFetch w s (Job.URL job) = true ->
    httpGet w (Job.URL job) = GetOk body readErr ->
    doJobCase w s jobID job
      (written s jobID
         (Job.mk (Job.ID job) (Job.URL job) "done" (Some (length (heap s))))
         (<[Job.URL job := length (heap s)]> (responses s))
         (heap s ++ [Response.mk (Job.URL job) body (nowFetch w)]))
      ([EvStatus jobID "fetching"; EvGet (Job.URL job);
        EvReadAll (Job.URL job)]
       ++ (if readErr then [EvStatus jobID "error - error reading body"]
           else [])
       ++ [EvStatus jobID "done"]).

(** A Job as it is between two rounds of workers: not yet fetched, failed
    at the GET, or finished with a result. *)
Definition settled (job : Job.t) : Prop :=
  (Job.Status job = "waiting" /\ Job.Response job = None) \/
  (Job.Status job = "error - error with GET" /\ Job.Response job = None) \/
  ((Job.Status job = "done" \/ Job.Status job = "done - cached") /\
   is_Some (Job.Response job)).

(** Every Job of the registry is stored under its own identifier, is
    settled, and its result, if any, is an object of the store that holds
    the Job's URL. *)
Definition jobsOK (s : State) : Prop :=
  forall (id : Z) (job : Job.t),
    jobs s !! id = Some job ->
    Job.ID job = id /\
    settled job /\
    forall p, Job.Response job = Some p ->
              exists r, heap s !! p = Some r /\
                        Response.URL r = Job.URL job.

(** The channel and the registry while the counter has not wrapped
    around: no identifier is queued twice, a queued identifier designates a
    Job that is [waiting] with a nil result, and the registered identifiers
    lie between 1 and the counter. *)
Definition queueOK (s : State) : Prop :=
  0 <= curJobID s /\
  NoDup (jobQueue s) /\
  (forall id, id ∈ jobQueue s ->
              exists job, jobs s !! id = Some job /\
                          Job.Status job = "waiting" /\
                          Job.Response job = None) /\
  (forall id, is_Some (jobs s !! id) -> 1 <= id <= curJobID s).

(** Every Job of the registry is stored under its own identifier. *)
Definition keyed (s : State) : Prop :=
  forall id job, jobs s !! id = Some job -> Job.ID job = id.


(** The status values after which [doJob] writes nothing more. *)
Definition finalStatus (status : string) : Prop :=
  status = "done" \/ status = "done - cached" \/
  status = "error - error with GET".

(** The registry and the channel of [Sys] while the counter has not
    wrapped around: [queueOK], every identifier from 1 to the counter is
    registered under itself, and the Job of a call that has not sent yet is
    [waiting], with a nil result, and not in the channel. *)
Definition sysOK (sys : Sys) : Prop :=
  queueOK (st sys) /\
  (forall id, 1 <= id <= curJobID (st sys) -> is_Some (jobs (st sys) !! id)) /\
  (forall id job, jobs (st sys) !! id = Some job -> Job.ID job = id) /\
  match call sys with
  | None => True
  | Some (jobID, false) =>
      (jobID ∉ jobQueue (st sys)) /\
      (exists url, jobs (st sys) !! jobID =
                   Some (Job.mk jobID url "waiting" None))
  | Some (jobID, true) => is_Some (jobs (st sys) !! jobID)
  end.

(** The calls of [AddJob] in progress: none or one. *)
Definition inProgress (sys : Sys) : nat :=
  match call sys with
  | None => O
  | Some _ => 1%nat
  end.

(** * Properties *)

(** ** Freshness is an integer comparison *)

Lemma Hours_lt_1 (d : Z) :
  Qltb (time.Hours d) 1 = true <-> d < time.Hour.
Proof.
  unfold Qltb, time.Hours, Qle_bool, Qplus, inject_Z.
  cbn [Qnum Qden].
  rewrite negb_true_iff, Z.leb_gt.
  change (Z.pos (1 * 3600000000000)) with time.Hour.
  pose proof (Z.quot_rem' d time.Hour) as E.
  change 3600000000000 with time.Hour.
  lia.
Qed.

Lemma Sub_lt_Hour (t u : Z) : time.Sub t u < time.Hour <-> t - u < time.Hour.
Proof.
  unfold time.Sub, time.Hour, time.Minute, minInt64, maxInt64.
  destruct (Z.ltb_spec (t - u) (- 2 ^ 63)); [lia |].
  destruct (Z.ltb_spec (2 ^ 63 - 1) (t - u)); lia.
Qed.

Lemma fresh_true (w : World) (r : Response.t) :
  fresh w r = true <-> nowCheck w - Response.Timestamp r < time.Hour.
Proof. unfold fresh. rewrite Hours_lt_1. apply Sub_lt_Hour. Qed.

Lemma fresh_false (w : World) (r : Response.t) :
  fresh w r = false <-> time.Hour <= nowCheck w - Response.Timestamp r.
Proof.
  pose proof (fresh_true w r) as E.
  destruct (fresh w r).
  - split; [discriminate |]. intros H.
    assert (nowCheck w - Response.Timestamp r < time.Hour) by (by apply E).
    lia.
  - split; [| done]. intros _.
    destruct (Z.lt_ge_cases (nowCheck w - Response.Timestamp r) time.Hour)
      as [Hlt | Hge]; [| lia].
    apply E in Hlt. discriminate.
Qed.

(** ** What [doJob] computes, case by case *)

(** Closes the equation between a state built by a chain of writes to the
    job [jobID] and its [written] form. *)
Ltac writes_eq Hjob :=
  unfold written, updJob, alloc, publish; cbn;
  repeat f_equal;
  apply map_eq; intros k;
  match goal with
  | |- context [<[?i := _]> _ !! k] =>
      destruct (decide (i = k)) as [<- | Hne];
      [ rewrite ?lookup_alter_eq, ?lookup_insert_eq, ?Hjob
      | rewrite ?lookup_alter_ne, ?lookup_insert_ne by done ]
  end; reflexivity.

Section DoJobCases.
Variables (w : World) (jobID : Z) (s : State) (job : Job.t).
Hypothesis Hjob : jobs s !! jobID = Some job.

Lemma doFetch_GetErr :
  httpGet w (Job.URL job) = GetErr ->
  doFetch w jobID job s =
  Returned
    (written s jobID
       (Job.mk (Job.ID job) (Job.URL job) "error - error with GET" None)
       (responses s) (heap s))
    [EvStatus jobID "fetching"; EvGet (Job.URL job);
     EvStatus jobID "error - error with GET"].
Proof.
  intros Hget. unfold doFetch. rewrite Hget. writes_eq Hjob.
Qed.

(** The state after a GET that connected does not depend on whether the
    body could be read. *)
Lemma doFetch_GetOk (body : string) (readErr : bool) :
  httpGet w (Job.URL job) = GetOk body readErr ->
  doFetch w jobID job s =
  Returned
    (written s jobID
       (Job.mk (Job.ID job) (Job.URL job) "done" (Some (length (heap s))))
       (<[Job.URL job := length (heap s)]> (responses s))
       (heap s ++ [Response.mk (Job.URL job) body (nowFetch w)]))
    ([EvStatus jobID "fetching"; EvGet (Job.URL job);
      EvReadAll (Job.URL job)]
     ++ (if readErr then [EvStatus jobID "error - error reading body"]
         else [])
     ++ [EvStatus jobID "done"]).
Proof.
  intros Hget. unfold doFetch. rewrite Hget.
  destruct readErr; writes_eq Hjob.
Qed.

Lemma doJob_mustFetch :
  mustFetch w s (Job.URL job) = true ->
  doJob w jobID s = doFetch w jobID job s.
Proof.
  unfold mustFetch, doJob. rewrite Hjob.
  destruct (responses s !! Job.URL job) as [p |]; [| done].
  destruct (heap s !! p) as [r |]; [| done].
  by destruct (fresh w r).
Qed.

Lemma doJob_hit (p : ptr) (r : Response.t) :
  responses s !! Job.URL job = Some p ->
  heap s !! p = Some r ->
  fresh w r = true ->
  doJob w jobID s =
  Returned
    (written s jobID
       (Job.mk (Job.ID job) (Job.URL job) "done - cached" (Some p))
       (responses s) (heap s))
    [EvStatus jobID "done - cached"].
Proof.
  intros Hp Hr Hf. unfold doJob. rewrite Hjob, Hp, Hr, Hf.
  writes_eq Hjob.
Qed.

End DoJobCases.

Lemma doJob_unregistered (w : World) (jobID : Z) (s : State) :
  jobs s !! jobID = None -> doJob w jobID s = Panicked.
Proof. intros H. unfold doJob. by rewrite H. Qed.

(** [doJob] never touches the channel. *)
Lemma mustFetch_setQueue (w : World) (q : list Z) (s : State) (url : string) :
  mustFetch w (setQueue q s) url = mustFetch w s url.
Proof. reflexivity. Qed.

(** ** Transport failure *)

(** C5: when the cache does not serve the job's URL and [http.Get] fails,
    the worker's round ends normally (no panic, the loop goes on), the job's
    status is the error string of the GET branch, its result is nil, and
    [http.Get] was called exactly once. *)
Theorem doJob_transport_failure (w : World) (s : State) (jobID : Z)
    (rest : list Z) (job : Job.t) :
  jobQueue s = jobID :: rest ->
  jobs s !! jobID = Some job ->
  mustFetch w s (Job.URL job) = true ->
  httpGet w (Job.URL job) = GetErr ->
  exists s' tr job',
    doJob w jobID (setQueue rest s) = Returned s' tr /\
    fetchWorker w s = WNext s' tr /\
    jobs s' !! jobID = Some job' /\
    Job.Status job' = "error - error with GET" /\
    status_kind (Job.Status job') = Some Error /\
    Job.Response job' = None /\
    gets tr = [Job.URL job].
Proof.
  intros Hq Hjob Hm Hget.
  assert (Hd : doJob w jobID (setQueue rest s) =
               doFetch w jobID job (setQueue rest s))
    by (by apply doJob_mustFetch).
  rewrite (doFetch_GetErr w jobID (setQueue rest s) job Hjob Hget) in Hd.
  eexists _, _, _. split; [exact Hd |].
  split; [unfold fetchWorker; by rewrite Hq, Hd |].
  split; [apply lookup_insert_eq |].
  repeat split.
Qed.

Lemma doJob_transport_failure_witness :
  exists s' tr job',
    doJob (netDown 7) 1 (setQueue [] submitted) = Returned s' tr /\
    fetchWorker (netDown 7) submitted = WNext s' tr /\
    jobs s' !! 1 = Some job' /\
    Job.Status job' = "error - error with GET" /\
    status_kind (Job.Status job') = Some Error /\
    Job.Response job' = None /\
    gets tr = [exampleURL].
Proof.
  apply (doJob_transport_failure (netDown 7) submitted 1 []
           (Job.mk 1 exampleURL "waiting" None)); reflexivity.
Defined.

(** After a GET that failed the cache and the store of Response objects
    are as before. *)
Lemma doJob_transport_failure_cache (w : World) (s : State) (jobID : Z)
    (job : Job.t) :
  jobs s !! jobID = Some job ->
  mustFetch w s (Job.URL job) = true ->
  httpGet w (Job.URL job) = GetErr ->
  exists s' tr,
    doJob w jobID s = Returned s' tr /\
    responses s' = responses s /\
    heap s' = heap s.
Proof.
  intros Hjob Hm Hget.
  rewrite (doJob_mustFetch w jobID s job Hjob Hm).
  rewrite (doFetch_GetErr w jobID s job Hjob Hget).
  eexists _, _. by repeat split.
Qed.

(** ** Successful fetch *)

(** C7: when the cache does not serve the job's URL and the GET and the
    read of the body both succeed, a new Response object holding the URL,
    the body and the current time is stored in the cache under the URL,
    whatever was there before; [GetResponse] returns it; the job is [done]
    with that object as its result. Other cache entries are unchanged. *)
Theorem doJob_success_publishes (w : World) (s : State) (jobID : Z)
    (job : Job.t) (body : string) :
  jobs s !! jobID = Some job ->
  mustFetch w s (Job.URL job) = true ->
  httpGet w (Job.URL job) = GetOk body false ->
  exists s' tr p,
    doJob w jobID s = Returned s' tr /\
    heap s !! p = None /\
    heap s' !! p = Some (Response.mk (Job.URL job) body (nowFetch w)) /\
    GetResponse (Job.URL job) s' = Some p /\
    (forall u, u <> Job.URL job -> GetResponse u s' = GetResponse u s) /\
    jobs s' !! jobID =
      Some (Job.mk (Job.ID job) (Job.URL job) "done" (Some p)) /\
    status_kind "done" = Some Done.
Proof.
  intros Hjob Hm Hget.
  rewrite (doJob_mustFetch w jobID s job Hjob Hm).
  rewrite (doFetch_GetOk w jobID s job Hjob body false Hget).
  eexists _, _, (length (heap s)). split; [reflexivity |].
  split; [by apply lookup_ge_None_2 |].
  split; [cbn; by rewrite lookup_app_r, Nat.sub_diag |].
  split; [apply lookup_insert_eq |].
  split; [intros u Hu; unfold GetResponse; cbn; by rewrite lookup_insert_ne |].
  split; [apply lookup_insert_eq | reflexivity].
Qed.

Lemma doJob_success_publishes_witness :
  exists s' tr p,
    doJob (netUp "X" 7 9) 1 (setQueue [] submitted) = Returned s' tr /\
    heap (setQueue [] submitted) !! p = None /\
    heap s' !! p = Some (Response.mk exampleURL "X" 9) /\
    GetResponse exampleURL s' = Some p /\
    (forall u, u <> exampleURL ->
               GetResponse u s' = GetResponse u (setQueue [] submitted)) /\
    jobs s' !! 1 = Some (Job.mk 1 exampleURL "done" (Some p)) /\
    status_kind "done" = Some Done.
Proof.
  apply (doJob_success_publishes (netUp "X" 7 9) (setQueue [] submitted) 1
           (Job.mk 1 exampleURL "waiting" None) "X"); reflexivity.
Defined.

(** ** Cache freshness *)

(** C4: let the URL of a registered job have the cache entry [p], an
    object [r] with timestamp [T]. If the clock at the check is less than
    one hour after [T], in particular at [T] + 59 minutes, the job becomes
    [done - cached] with [p] itself as result and nothing is fetched. At
    [T] + 61 minutes the URL is fetched, and when the fetch succeeds the job
    is [done] with a new object whose timestamp, the later clock reading, is
    after [T]. *)
Theorem doJob_cache_freshness (w : World) (s : State) (jobID : Z)
    (job : Job.t) (p : ptr) (r : Response.t) :
  jobs s !! jobID = Some job ->
  responses s !! Job.URL job = Some p ->
  heap s !! p = Some r ->
  (nowCheck w - Response.Timestamp r < time.Hour ->
   servedFromCache w s jobID job p) /\
  (nowCheck w = Response.Timestamp r + 59 * time.Minute ->
   servedFromCache w s jobID job p) /\
  (nowCheck w = Response.Timestamp r + 61 * time.Minute ->
   forall body,
     httpGet w (Job.URL job) = GetOk body false ->
     nowCheck w <= nowFetch w ->
     fetchedAfresh w s jobID job p body /\
     Response.Timestamp r < nowFetch w).
Proof.
  intros Hjob Hp Hr.
  assert (Hhit : nowCheck w - Response.Timestamp r < time.Hour ->
                 servedFromCache w s jobID job p).
  { intros Hage. apply fresh_true in Hage.
    eexists _, _. split; [by apply (doJob_hit w jobID s job Hjob p r) |].
    split; [reflexivity |]. split; [reflexivity |].
    split; [apply lookup_insert_eq |]. repeat split. }
  split; [exact Hhit |].
  split.
  - intros Hnow. apply Hhit. unfold time.Hour, time.Minute in *. lia.
  - intros Hnow body Hget Hmono.
    assert (Hstale : fresh w r = false).
    { apply fresh_false. unfold time.Hour, time.Minute in *. lia. }
    assert (Hm : mustFetch w s (Job.URL job) = true).
    { unfold mustFetch. by rewrite Hp, Hr, Hstale. }
    split; [| unfold time.Minute in *; lia].
    pose proof (lookup_lt_Some _ _ _ Hr) as Hlt.
    exists (written s jobID
              (Job.mk (Job.ID job) (Job.URL job) "done"
                      (Some (length (heap s))))
              (<[Job.URL job := length (heap s)]> (responses s))
              (heap s ++ [Response.mk (Job.URL job) body (nowFetch w)])).
    eexists _, (length (heap s)).
    split.
    { rewrite (doJob_mustFetch w jobID s job Hjob Hm).
      apply (doFetch_GetOk w jobID s job Hjob body false Hget). }
    split; [reflexivity |].
    split; [lia |].
    split; [by apply lookup_ge_None_2 |].
    split; [cbn; by rewrite lookup_app_r, Nat.sub_diag |].
    split; [cbn; by rewrite lookup_app_l |].
    split; apply lookup_insert_eq.
Qed.

Lemma doJob_cache_freshness_witness :
  servedFromCache (netUp "Y" (1000 + 59 * time.Minute) (1001 + 59 * time.Minute))
    (setQueue [] (fetched 1000)) 2 (Job.mk 2 exampleURL "waiting" None) 0%nat
  /\
  (fetchedAfresh (netUp "Y" (1000 + 61 * time.Minute) (1001 + 61 * time.Minute))
     (setQueue [] (fetched 1000)) 2 (Job.mk 2 exampleURL "waiting" None)
     0%nat "Y"
   /\ 1000 < 1001 + 61 * time.Minute).
Proof.
  split.
  - apply (doJob_cache_freshness
             (netUp "Y" (1000 + 59 * time.Minute) (1001 + 59 * time.Minute))
             (setQueue [] (fetched 1000)) 2
             (Job.mk 2 exampleURL "waiting" None) 0%nat
             (Response.mk exampleURL "X" 1000)); reflexivity.
  - apply (doJob_cache_freshness
             (netUp "Y" (1000 + 61 * time.Minute) (1001 + 61 * time.Minute))
             (setQueue [] (fetched 1000)) 2
             (Job.mk 2 exampleURL "waiting" None) 0%nat
             (Response.mk exampleURL "X" 1000));
      try reflexivity.
    cbn. unfold time.Minute. lia.
Defined.

(** The concrete states are states of the program. *)
Lemma submitted_run :
  run [Submit exampleURL] init =
  Some ([Job.mk 1 exampleURL "waiting" None], submitted).
Proof. reflexivity. Qed.

Lemma fetched_run (t t' : time.Time) :
  run [Submit exampleURL; Work (netUp "X" t' t); Submit exampleURL] init =
  Some ([Job.mk 1 exampleURL "waiting" None;
         Job.mk 2 exampleURL "waiting" None], fetched t).
Proof. reflexivity. Qed.

(** ** Body-read failure *)

(** When the GET connects, the round of the worker ends with the job
    [done] and a Response published, whether or not the body could be
    read: after a failed read the two error writes are overwritten. *)
Lemma doJob_connected (w : World) (s : State) (jobID : Z) (job : Job.t)
    (body : string) (readErr : bool) :
  jobs s !! jobID = Some job ->
  mustFetch w s (Job.URL job) = true ->
  httpGet w (Job.URL job) = GetOk body readErr ->
  exists tr,
    doJob w jobID s =
    Returned
      (written s jobID
         (Job.mk (Job.ID job) (Job.URL job) "done" (Some (length (heap s))))
         (<[Job.URL job := length (heap s)]> (responses s))
         (heap s ++ [Response.mk (Job.URL job) body (nowFetch w)])) tr /\
    statusWrites jobID tr =
      "fetching" ::
      (if readErr then ["error - error reading body"] else []) ++ ["done"].
Proof.
  intros Hjob Hm Hget.
  rewrite (doJob_mustFetch w jobID s job Hjob Hm).
  rewrite (doFetch_GetOk w jobID s job Hjob body readErr Hget).
  eexists. split; [reflexivity |].
  destruct readErr; cbn; repeat case_decide; done.
Qed.

(** C1, at a failing read: job 1 is fetched, the connection succeeds and
    the body breaks off after ["par"]. The job ends [done], not in error,
    and a Response holding the partial body is attached to it. *)
Theorem doJob_read_failure_ends_done :
  httpGet (netCut "par" 7 9) exampleURL = GetOk "par" true /\
  exists s' tr,
    fetchWorker (netCut "par" 7 9) submitted = WNext s' tr /\
    jobs s' !! 1 = Some (Job.mk 1 exampleURL "done" (Some 0%nat)) /\
    heap s' !! 0%nat = Some (Response.mk exampleURL "par" 9).
Proof.
  split; [reflexivity |].
  eexists _, _. split; [reflexivity |]. split; reflexivity.
Qed.

(** C2, at a failing read: before the job runs the cache has no entry for
    its URL; after the read of the body has failed, [GetResponse] returns a
    new entry. With a stale entry in the cache, the failed read replaces
    it. *)
Theorem doJob_read_failure_changes_cache :
  (GetResponse exampleURL submitted = None /\
   exists s' tr,
     fetchWorker (netCut "par" 7 9) submitted = WNext s' tr /\
     GetResponse exampleURL s' = Some 0%nat) /\
  (GetResponse exampleURL (fetched 0) = Some 0%nat /\
   exists s' tr,
     fetchWorker (netCut "par" (2 * time.Hour) (2 * time.Hour)) (fetched 0)
       = WNext s' tr /\
     GetResponse exampleURL s' = Some 1%nat /\
     heap s' !! 1%nat = Some (Response.mk exampleURL "par" (2 * time.Hour))).
Proof.
  split; (split; [reflexivity |]); eexists _, _;
    (split; [reflexivity |]); repeat split.
Qed.

(** ** The job state machine *)

(** C6, at a failing read: job 1 is created [waiting]; the round of the
    worker then writes [fetching], the read-error string and [done]. The
    path waiting, fetching, error, done is a prefix of none of the three
    paths, and the status changes after [error]. *)
Theorem doJob_read_failure_status_path :
  exists s' tr,
    fetchWorker (netCut "par" 7 9) submitted = WNext s' tr /\
    statusWrites 1 tr = ["fetching"; "error - error reading body"; "done"] /\
    status_kind <$> ("waiting" :: statusWrites 1 tr) =
      [Some Waiting; Some Fetching; Some Error; Some Done] /\
    allowedPath [Waiting; Fetching; Error; Done] = false /\
    terminalIsLast [Waiting; Fetching; Error; Done] = false.
Proof.
  eexists _, _. split; [reflexivity |]. repeat split.
Qed.

(** ** The invariants hold in every execution *)

(** On a registered job and a sound cache [doJob] returns. *)
Lemma doJob_returns (w : World) (s : State) (jobID : Z) (job : Job.t) :
  jobs s !! jobID = Some job ->
  cacheOK s ->
  exists s' tr,
    doJob w jobID s = Returned s' tr /\ doJobResult w s jobID job s'.
Proof.
  intros Hjob Hc.
  destruct (mustFetch w s (Job.URL job)) eqn:Hm.
  - rewrite (doJob_mustFetch w jobID s job Hjob Hm).
    destruct (httpGet w (Job.URL job)) as [| body readErr] eqn:Hget.
    + rewrite (doFetch_GetErr w jobID s job Hjob Hget).
      eexists _, _. split; [reflexivity | constructor].
    + rewrite (doFetch_GetOk w jobID s job Hjob body readErr Hget).
      eexists _, _. split; [reflexivity | constructor].
  - unfold mustFetch in Hm.
    destruct (responses s !! Job.URL job) as [p |] eqn:Hp; [| done].
    destruct (Hc _ _ Hp) as (r & Hr & _). rewrite Hr in Hm.
    apply negb_false_iff in Hm.
    rewrite (doJob_hit w jobID s job Hjob p r Hp Hr Hm).
    eexists _, _. split; [reflexivity | constructor].
Qed.

Lemma doJobResult_queueRegistered (w : World) (s s' : State) (jobID : Z)
    (job : Job.t) :
  doJobResult w s jobID job s' -> queueRegistered s -> queueRegistered s'.
Proof.
  intros Hres Hq id Hid.
  destruct Hres; cbn in *; apply lookup_insert_is_Some';
    right; by apply Hq.
Qed.

Lemma doJobResult_cacheOK (w : World) (s s' : State) (jobID : Z)
    (job : Job.t) :
  doJobResult w s jobID job s' -> cacheOK s -> cacheOK s'.
Proof.
  intros Hres Hc u p Hp.
  destruct Hres as [job' | job' body]; cbn in *; [by apply Hc |].
  destruct (decide (Job.URL job = u)) as [<- | Hne].
  - rewrite lookup_insert_eq in Hp. injection Hp as <-.
    eexists. split; [by rewrite lookup_app_r, Nat.sub_diag | reflexivity].
  - rewrite lookup_insert_ne in Hp by done.
    destruct (Hc _ _ Hp) as (r & Hr & Hu).
    exists r. split; [| done].
    rewrite lookup_app_l; [done | by eapply lookup_lt_Some].
Qed.

Lemma inv_init : inv init.
Proof.
  split.
  - intros id Hid. cbn in Hid. by apply elem_of_nil in Hid.
  - intros u p Hp. cbn in Hp. by rewrite lookup_empty in Hp.
Qed.

Lemma AddJob_inv (url : string) (s s' : State) (job : Job.t) :
  AddJob url s = Some (job, s') -> inv s -> inv s'.
Proof.
  unfold AddJob. intros H [Hq Hc].
  case_decide; [| done]. injection H as <- <-.
  split; [| exact Hc].
  intros id Hid. cbn in *.
  apply lookup_insert_is_Some'.
  apply elem_of_app in Hid as [Hid | Hid]; [right; by apply Hq |].
  left. by apply list_elem_of_singleton in Hid.
Qed.

Lemma setQueue_inv (s : State) (jobID : Z) (rest : list Z) :
  jobQueue s = jobID :: rest -> inv s -> inv (setQueue rest s).
Proof.
  intros Hqs [Hq Hc]. split; [| exact Hc].
  intros id Hid. cbn in *. apply Hq. rewrite Hqs. by right.
Qed.

(** In a state that satisfies the invariant a worker whose receive
    succeeds finishes its round. *)
Lemma fetchWorker_returns (w : World) (s : State) (jobID : Z)
    (rest : list Z) :
  inv s ->
  jobQueue s = jobID :: rest ->
  exists job s' tr,
    jobs s !! jobID = Some job /\
    doJob w jobID (setQueue rest s) = Returned s' tr /\
    fetchWorker w s = WNext s' tr /\
    inv s'.
Proof.
  intros Hinv Hqs.
  destruct (proj1 Hinv jobID) as [job Hjob]; [rewrite Hqs; by left |].
  pose proof (setQueue_inv s jobID rest Hqs Hinv) as [Hq' Hc'].
  destruct (doJob_returns w (setQueue rest s) jobID job Hjob Hc')
    as (s' & tr & Hd & Hres).
  exists job, s', tr. split; [done |]. split; [done |].
  split; [unfold fetchWorker; by rewrite Hqs, Hd |].
  split.
  - by eapply doJobResult_queueRegistered.
  - by eapply doJobResult_cacheOK.
Qed.

Lemma exec_inv (a : Action) (s s' : State) (js : list Job.t) :
  exec a s = Some (js, s') -> inv s -> inv s'.
Proof.
  destruct a as [url | w]; cbn; intros H Hinv.
  - destruct (AddJob url s) as [[job s1] |] eqn:Ha; [| done].
    injection H as <- <-. by eapply AddJob_inv.
  - destruct (jobQueue s) as [| jobID rest] eqn:Hqs.
    + unfold fetchWorker in H. by rewrite Hqs in H.
    + destruct (fetchWorker_returns w s jobID rest Hinv Hqs)
        as (job & s1 & tr & _ & _ & Hw & Hinv').
      rewrite Hw in H. by injection H as <- <-.
Qed.

Lemma run_inv (acts : list Action) (s s' : State) (js : list Job.t) :
  run acts s = Some (js, s') -> inv s -> inv s'.
Proof.
  revert s js. induction acts as [| a acts IH]; cbn; intros s js H Hinv.
  - by injection H as <- <-.
  - destruct (exec a s) as [[js1 s1] |] eqn:He; [| done].
    destruct (run acts s1) as [[js2 s2] |] eqn:Hr; [| done].
    injection H as <- <-.
    eapply IH; [exact Hr |]. by eapply exec_inv.
Qed.

Lemma reachable_inv (s : State) : reachable s -> inv s.
Proof. intros (acts & js & H). eapply run_inv; [exact H | apply inv_init]. Qed.

(** ** Cache entries are keyed by their own URL *)

(** C10: in every state of an execution, a Response that [GetResponse]
    returns for [u] is an object of the store whose URL is [u]. *)
Theorem GetResponse_url (s : State) (u : string) (p : ptr) :
  reachable s ->
  GetResponse u s = Some p ->
  exists r, heap s !! p = Some r /\ Response.URL r = u.
Proof. intros Hr Hp. by apply (proj2 (reachable_inv s Hr)). Qed.

Lemma GetResponse_url_witness :
  exists r, heap (fetched 5) !! 0%nat = Some r /\ Response.URL r = exampleURL.
Proof.
  apply (GetResponse_url (fetched 5) exampleURL 0%nat).
  - exists [Submit exampleURL; Work (netUp "X" 5 5); Submit exampleURL],
      [Job.mk 1 exampleURL "waiting" None; Job.mk 2 exampleURL "waiting" None].
    reflexivity.
  - reflexivity.
Defined.

(** ** Job identifiers *)

Lemma AddInt64_small (c : Z) : 0 <= c < maxInt64 -> AddInt64 c 1 = c + 1.
Proof.
  unfold AddInt64, wrap64, maxInt64. intros H.
  rewrite Z.mod_small; lia.
Qed.

Lemma wrap64_succ (c : Z) : AddInt64 (wrap64 c) 1 = wrap64 (c + 1).
Proof.
  unfold AddInt64, wrap64.
  replace ((c + 2 ^ 63) mod 2 ^ 64 - 2 ^ 63 + 1 + 2 ^ 63)
    with ((c + 2 ^ 63) mod 2 ^ 64 + 1) by lia.
  rewrite Zplus_mod_idemp_l. do 2 f_equal. lia.
Qed.

Lemma AddJob_returns (url : string) (s s' : State) (job : Job.t) :
  AddJob url s = Some (job, s') ->
  job = Job.mk (AddInt64 (curJobID s) 1) url "waiting" None /\
  curJobID s' = AddInt64 (curJobID s) 1 /\
  GetJob (Job.ID job) s' = Some job.
Proof.
  unfold AddJob. intros H. case_decide; [| done]. injection H as <- <-.
  split; [done |]. split; [done |]. apply lookup_insert_eq.
Qed.

Lemma doJob_curJobID (w : World) (jobID : Z) (s s' : State)
    (tr : list Event) :
  doJob w jobID s = Returned s' tr -> curJobID s' = curJobID s.
Proof.
  unfold doJob, doFetch, alloc, publish, updJob. cbn. intros H.
  repeat case_match; try done; by injection H as <- <-.
Qed.

Lemma exec_Work_curJobID (w : World) (s s' : State) (js : list Job.t) :
  exec (Work w) s = Some (js, s') -> js = [] /\ curJobID s' = curJobID s.
Proof.
  cbn. unfold fetchWorker.
  destruct (jobQueue s) as [| jobID rest]; [done |].
  destruct (doJob w jobID (setQueue rest s)) as [s1 tr |] eqn:Hd; [| done].
  intros H. injection H as <- <-.
  split; [done |]. by rewrite (doJob_curJobID _ _ _ _ _ Hd).
Qed.

(** While the counter stays below the largest [int64], the identifiers an
    execution hands out are the next integers, in call order, and each
    returned Job is [waiting] with a nil result. *)
Lemma run_ids (acts : list Action) :
  forall (s s' : State) (js : list Job.t),
    run acts s = Some (js, s') ->
    0 <= curJobID s ->
    curJobID s + Z.of_nat (length js) <= maxInt64 ->
    Job.ID <$> js = seqZ (curJobID s + 1) (Z.of_nat (length js)) /\
    curJobID s' = curJobID s + Z.of_nat (length js) /\
    Forall (fun job => Job.Status job = "waiting" /\ Job.Response job = None)
           js.
Proof.
  induction acts as [| a acts IH]; intros s s' js H H0 Hmax.
  - cbn in H. injection H as <- <-. cbn. split; [done |].
    split; [lia | constructor].
  - cbn [run] in H.
    destruct (exec a s) as [[js1 s1] |] eqn:He; [| done].
    destruct (run acts s1) as [[js2 s2] |] eqn:Hr; [| done].
    injection H as <- <-.
    destruct a as [url | w].
    + cbn in He.
      destruct (AddJob url s) as [[job s1'] |] eqn:Ha; [| done].
      injection He as <- <-.
      destruct (AddJob_returns _ _ _ _ Ha) as (Hjob & Hcur & _).
      cbn [app length] in *.
      rewrite AddInt64_small in Hcur, Hjob by lia.
      destruct (IH _ _ _ Hr) as (Hids & Hc & Hall); [lia | lia |].
      split; [| split].
      * rewrite seqZ_cons by lia. cbn [fmap list_fmap].
        rewrite Hids, Hcur, Hjob. cbn [Job.ID].
        do 2 f_equal; lia.
      * lia.
      * constructor; [by rewrite Hjob | done].
    + destruct (exec_Work_curJobID _ _ _ _ He) as [-> Hcur].
      cbn [app] in *. rewrite <- Hcur. apply IH; [done | lia | lia].
Qed.


(** C9, as the code has it: for the first [2^63 - 1] submissions of an
    execution, the Job returned by the i-th one, counted from 0, has the
    identifier i + 1: the first has 1 and each next has one more. *)
Theorem AddJob_ids_consecutive (acts : list Action) (js : list Job.t)
    (s : State) :
  run acts init = Some (js, s) ->
  Z.of_nat (length js) <= maxInt64 ->
  Job.ID <$> js = seqZ 1 (Z.of_nat (length js)) /\
  forall (i : nat) (job : Job.t),
    js !! i = Some job -> Job.ID job = Z.of_nat i + 1.
Proof.
  intros Hrun Hlen.
  destruct (run_ids acts init s js Hrun) as (Hids & _ & _);
    [done | cbn; lia |].
  cbn in Hids. split; [exact Hids |].
  intros i job Hi.
  assert (Hl : (Job.ID <$> js) !! i = Some (Job.ID job))
    by (by rewrite list_lookup_fmap, Hi).
  rewrite Hids in Hl. apply lookup_seqZ in Hl. lia.
Qed.

Lemma AddJob_ids_consecutive_witness :
  Job.ID <$> [Job.mk 1 exampleURL "waiting" None;
              Job.mk 2 exampleURL "waiting" None] = seqZ 1 2.
Proof.
  pose proof
    (AddJob_ids_consecutive
       [Submit exampleURL; Work (netUp "X" 5 5); Submit exampleURL]
       [Job.mk 1 exampleURL "waiting" None; Job.mk 2 exampleURL "waiting" None]
       (fetched 5) eq_refl) as H.
  destruct H as (Hs & _).
  - unfold maxInt64. cbn. lia.
  - exact Hs.
Defined.

(** ** The counter wraps around *)

(** Such an execution runs to its end from any state with an empty channel
    and an empty cache, whatever the counter is, and leaves the counter [n]
    steps further, modulo [2^64]. *)
Lemma cycles_run (n : nat) :
  forall (s : State) (c : Z),
    jobQueue s = [] ->
    responses s = ∅ ->
    curJobID s = wrap64 c ->
    exists js s',
      run (cycles n) s = Some (js, s') /\
      jobQueue s' = [] /\
      responses s' = ∅ /\
      curJobID s' = wrap64 (c + Z.of_nat n).
Proof.
  induction n as [| n IH]; intros s c Hq Hresp Hc.
  - exists [], s. cbn [cycles run]. rewrite Z.add_0_r. by repeat split.
  - set (jobID := AddInt64 (curJobID s) 1).
    set (job := Job.mk jobID exampleURL "waiting" None).
    set (s1 := mkState [jobID] (<[jobID := job]> (jobs s)) (responses s) jobID
                       (heap s)).
    assert (Ha : AddJob exampleURL s = Some (job, s1)).
    { unfold AddJob. rewrite Hq. reflexivity. }
    assert (Hjob : jobs (setQueue [] s1) !! jobID = Some job)
      by apply lookup_insert_eq.
    assert (Hm : mustFetch (netDown 0) (setQueue [] s1) (Job.URL job) = true).
    { unfold mustFetch. cbn. by rewrite Hresp, lookup_empty. }
    pose proof (doJob_mustFetch _ _ _ _ Hjob Hm) as Hd.
    rewrite (doFetch_GetErr (netDown 0) jobID (setQueue [] s1) job Hjob
               eq_refl) in Hd.
    match type of Hd with _ = Returned ?st _ => set (s2 := st) in * end.
    destruct (IH s2 (c + 1)) as (js & s' & Hrun & Hq' & Hr' & Hc').
    { reflexivity. }
    { exact Hresp. }
    { cbn. unfold jobID. rewrite Hc. apply wrap64_succ. }
    exists (job :: js), s'.
    split; [| split; [done | split; [done |]]].
    + cbn [cycles run exec]. rewrite Ha.
      unfold fetchWorker. cbn [jobQueue s1]. rewrite Hd. by rewrite Hrun.
    + rewrite Hc'. f_equal. lia.
Qed.

(** The state before the submission that reaches the largest [int64]. *)
Lemma counter_reaches_max :
  exists js s,
    run (cycles (Z.to_nat (maxInt64 - 1))) init = Some (js, s) /\
    jobQueue s = [] /\
    curJobID s = maxInt64 - 1.
Proof.
  remember (Z.to_nat (maxInt64 - 1)) as N eqn:HN.
  assert (HN' : Z.of_nat N = maxInt64 - 1).
  { subst N. apply Z2Nat.id. unfold maxInt64. lia. }
  clear HN.
  destruct (cycles_run N init 0) as (js & s & Hrun & Hq & _ & Hc);
    [reflexivity .. |].
  exists js, s. split; [done |]. split; [done |].
  rewrite Hc, HN'. reflexivity.
Qed.

(** What the two submissions after [counter_reaches_max] return. *)
Lemma AddJob_at_max (s : State) :
  jobQueue s = [] ->
  curJobID s = maxInt64 - 1 ->
  exists job1 s1 job2 s2,
    AddJob exampleURL s = Some (job1, s1) /\
    AddJob exampleURL s1 = Some (job2, s2) /\
    Job.ID job1 = maxInt64 /\
    Job.ID job2 = minInt64.
Proof.
  intros Hq Hc. unfold AddJob. rewrite Hq, Hc.
  eexists _, _, _, _. split; [reflexivity |].
  split; [reflexivity |]. split; reflexivity.
Qed.

(** C9, as stated, fails: in the same execution the identifier returned
    after the largest [int64] is not that identifier plus one. *)
Lemma AddJob_ids_wrap_not_consecutive :
  exists js s job1 s1 job2 s2,
    run (cycles (Z.to_nat (maxInt64 - 1))) init = Some (js, s) /\
    AddJob exampleURL s = Some (job1, s1) /\
    AddJob exampleURL s1 = Some (job2, s2) /\
    Job.ID job1 = 9223372036854775807 /\
    Job.ID job2 = -9223372036854775808 /\
    Job.ID job2 <> Job.ID job1 + 1.
Proof.
  destruct counter_reaches_max as (js & s & Hrun & Hq & Hc).
  destruct (AddJob_at_max s Hq Hc)
    as (job1 & s1 & job2 & s2 & H1 & H2 & E1 & E2).
  exists js, s, job1, s1, job2, s2.
  repeat (split; [done |]).
  rewrite E1, E2. unfold maxInt64, minInt64. lia.
Qed.

(** ** Every way [doJob] returns *)

Lemma doJob_cases (w : World) (s s' : State) (jobID : Z) (tr : list Event) :
  doJob w jobID s = Returned s' tr ->
  exists job, jobs s !! jobID = Some job /\ doJobCase w s jobID job s' tr.
Proof.
  intros H.
  destruct (jobs s !! jobID) as [job |] eqn:Hjob;
    [| by rewrite doJob_unregistered in H].
  exists job. split; [done |].
  destruct (mustFetch w s (Job.URL job)) eqn:Hm.
  - rewrite (doJob_mustFetch w jobID s job Hjob Hm) in H.
    destruct (httpGet w (Job.URL job)) as [| body readErr] eqn:Hget.
    + rewrite (doFetch_GetErr w jobID s job Hjob Hget) in H.
      injection H as <- <-. by constructor.
    + rewrite (doFetch_GetOk w jobID s job Hjob body readErr Hget) in H.
      injection H as <- <-. by constructor.
  - unfold mustFetch in Hm.
    destruct (responses s !! Job.URL job) as [p |] eqn:Hp; [| done].
    destruct (heap s !! p) as [r |] eqn:Hr.
    + apply negb_false_iff in Hm.
      rewrite (doJob_hit w jobID s job Hjob p r Hp Hr Hm) in H.
      injection H as <- <-. by econstructor.
    + unfold doJob in H. by rewrite Hjob, Hp, Hr in H.
Qed.

(** X1: a call of [doJob] that returns has changed nothing but the Status
    and the Response of the job it was called for, the cache entry of that
    job's URL, and the store, which it has at most extended. *)
Theorem doJob_frame (w : World) (s s' : State) (jobID : Z)
    (tr : list Event) :
  doJob w jobID s = Returned s' tr ->
  exists job job',
    jobs s !! jobID = Some job /\
    jobs s' !! jobID = Some job' /\
    Job.ID job' = Job.ID job /\
    Job.URL job' = Job.URL job /\
    (forall id, id <> jobID -> jobs s' !! id = jobs s !! id) /\
    (forall u, u <> Job.URL job -> responses s' !! u = responses s !! u) /\
    heap s `prefix_of` heap s' /\
    jobQueue s' = jobQueue s /\
    curJobID s' = curJobID s.
Proof.
  intros H. destruct (doJob_cases _ _ _ _ _ H) as (job & Hjob & Hcase).
  exists job.
  destruct Hcase; eexists; (split; [done |]);
    (split; [apply lookup_insert_eq |]); cbn;
    (split; [done |]); (split; [done |]);
    (split; [intros id Hid; by rewrite lookup_insert_ne |]).
  - by repeat split.
  - by repeat split.
  - split; [intros u Hu; by rewrite lookup_insert_ne |].
    split; [by apply prefix_app_r | done].
Qed.

Lemma doJob_frame_witness :
  exists job job',
    jobs (fetched 5) !! 2 = Some job /\
    jobs (written (fetched 5) 2
            (Job.mk 2 exampleURL "done - cached" (Some 0%nat))
            (responses (fetched 5)) (heap (fetched 5))) !! 2 = Some job' /\
    Job.ID job' = Job.ID job /\
    Job.URL job' = Job.URL job.
Proof.
  destruct (doJob_frame (netUp "Y" 6 6) (fetched 5)
              (written (fetched 5) 2
                 (Job.mk 2 exampleURL "done - cached" (Some 0%nat))
                 (responses (fetched 5)) (heap (fetched 5)))
              2 [EvStatus 2 "done - cached"] eq_refl)
    as (job & job' & H1 & H2 & H3 & H4 & _).
  exists job, job'. exact (conj H1 (conj H2 (conj H3 H4))).
Defined.

(** X2: a call of [doJob] that returns has called [http.Get] at most once,
    for the job's own URL, and has left the job [done - cached] when it made
    no call, [done] or failed at the GET when it made one; the status of a
    failed read is never the one the job is left with. *)
Theorem doJob_outcomes (w : World) (s s' : State) (jobID : Z)
    (tr : list Event) :
  doJob w jobID s = Returned s' tr ->
  exists job job',
    jobs s !! jobID = Some job /\
    jobs s' !! jobID = Some job' /\
    ((gets tr = [] /\ Job.Status job' = "done - cached" /\
      Job.Response job' = responses s !! Job.URL job /\
      is_Some (Job.Response job')) \/
     (gets tr = [Job.URL job] /\ Job.Status job' = "error - error with GET" /\
      Job.Response job' = None) \/
     (gets tr = [Job.URL job] /\ Job.Status job' = "done" /\
      Job.Response job' = responses s' !! Job.URL job /\
      is_Some (Job.Response job'))) /\
    Job.Status job' <> "error - error reading body" /\
    Job.Status job' <> "fetching".
Proof.
  intros H. destruct (doJob_cases _ _ _ _ _ H) as (job & Hjob & Hcase).
  exists job.
  destruct Hcase as [p r Hp Hr Hf | Hm Hget | body readErr Hm Hget];
    eexists; (split; [done |]); (split; [apply lookup_insert_eq |]); cbn.
  - split; [| done]. left. by rewrite Hp.
  - split; [| done]. right; left. done.
  - split; [| done]. right; right.
    rewrite lookup_insert_eq. by destruct readErr.
Qed.

Lemma doJob_outcomes_witness :
  exists job job',
    jobs submitted !! 1 = Some job /\
    jobs (written submitted 1
            (Job.mk 1 exampleURL "error - error with GET" None)
            (responses submitted) (heap submitted)) !! 1 = Some job' /\
    Job.Status job' <> "error - error reading body".
Proof.
  destruct (doJob_outcomes (netDown 7) submitted
              (written submitted 1
                 (Job.mk 1 exampleURL "error - error with GET" None)
                 (responses submitted) (heap submitted))
              1 [EvStatus 1 "fetching"; EvGet exampleURL;
                 EvStatus 1 "error - error with GET"] eq_refl)
    as (job & job' & H1 & H2 & _ & H3 & _).
  exists job, job'. exact (conj H1 (conj H2 H3)).
Defined.

(** X3: for a job whose URL has a cache entry, [doJob] makes no GET exactly
    when the clock is less than one hour (3600000000000 ns) after the
    entry's timestamp: an entry exactly one hour old is fetched again, and
    an entry stamped after the clock reading is served. *)
Theorem doJob_hour_boundary (w : World) (s s' : State) (jobID : Z)
    (job : Job.t) (p : ptr) (r : Response.t) (tr : list Event) :
  jobs s !! jobID = Some job ->
  responses s !! Job.URL job = Some p ->
  heap s !! p = Some r ->
  doJob w jobID s = Returned s' tr ->
  (gets tr = [] <-> nowCheck w - Response.Timestamp r < 3600000000000) /\
  (nowCheck w - Response.Timestamp r = 3600000000000 ->
   gets tr = [Job.URL job]) /\
  (nowCheck w <= Response.Timestamp r -> gets tr = []).
Proof.
  intros Hjob Hp Hr H.
  assert (Hg : gets tr = [] <->
               nowCheck w - Response.Timestamp r < 3600000000000).
  { change 3600000000000 with time.Hour. rewrite <- fresh_true.
    destruct (fresh w r) eqn:Hf.
    - rewrite (doJob_hit w jobID s job Hjob p r Hp Hr Hf) in H.
      injection H as <- <-. done.
    - assert (Hm : mustFetch w s (Job.URL job) = true)
        by (unfold mustFetch; by rewrite Hp, Hr, Hf).
      rewrite (doJob_mustFetch w jobID s job Hjob Hm) in H.
      destruct (httpGet w (Job.URL job)) as [| body readErr] eqn:Hget.
      + rewrite (doFetch_GetErr w jobID s job Hjob Hget) in H.
        injection H as <- <-. done.
      + rewrite (doFetch_GetOk w jobID s job Hjob body readErr Hget) in H.
        injection H as <- <-. by destruct readErr. }
  split; [exact Hg |]. split.
  - intros Hage.
    destruct (doJob_cases _ _ _ _ _ H) as (job0 & Hjob0 & Hcase).
    rewrite Hjob in Hjob0. injection Hjob0 as <-.
    destruct Hcase as [p0 r0 Hp0 Hr0 Hf | Hm Hget | body readErr Hm Hget].
    + assert (gets [EvStatus jobID "done - cached"] = []) as Hn by done.
      apply Hg in Hn. lia.
    + done.
    + by destruct readErr.
  - intros Hle. apply Hg. lia.
Qed.

Lemma doJob_hour_boundary_witness :
  gets [EvStatus 2 "fetching"; EvGet exampleURL;
        EvStatus 2 "error - error with GET"] = [] <->
  3600000000005 - 5 < 3600000000000.
Proof.
  apply (doJob_hour_boundary (netDown 3600000000005) (fetched 5)
           (written (fetched 5) 2
              (Job.mk 2 exampleURL "error - error with GET" None)
              (responses (fetched 5)) (heap (fetched 5)))
           2 (Job.mk 2 exampleURL "waiting" None) 0%nat
           (Response.mk exampleURL "X" 5)
           [EvStatus 2 "fetching"; EvGet exampleURL;
            EvStatus 2 "error - error with GET"]); reflexivity.
Defined.

(** ** Steps and executions *)

Lemma served_run :
  run [Work (netUp "Y" 6 6)] (fetched 5) = Some ([], served).
Proof. reflexivity. Qed.

(** The two kinds of steps. *)
Lemma exec_cases (a : Action) (s s' : State) (js : list Job.t) :
  exec a s = Some (js, s') ->
  (exists url job,
      a = Submit url /\ AddJob url s = Some (job, s') /\ js = [job]) \/
  (exists w jobID rest tr,
      a = Work w /\ jobQueue s = jobID :: rest /\
      doJob w jobID (setQueue rest s) = Returned s' tr /\ js = []).
Proof.
  destruct a as [url | w]; cbn [exec]; intros H.
  - left. destruct (AddJob url s) as [[job s1] |] eqn:Ha; [| done].
    injection H as <- <-. by exists url, job.
  - right. unfold fetchWorker in H.
    destruct (jobQueue s) as [| jobID rest] eqn:Hq; [done |].
    destruct (doJob w jobID (setQueue rest s)) as [s1 tr |] eqn:Hd; [| done].
    injection H as <- <-. by exists w, jobID, rest, tr.
Qed.

(** A relation between states that every step respects holds between the
    ends of every execution. *)
Lemma run_rel (R : State -> State -> Prop) :
  (forall s, R s s) ->
  (forall s1 s2 s3, R s1 s2 -> R s2 s3 -> R s1 s3) ->
  (forall a s js s', exec a s = Some (js, s') -> R s s') ->
  forall acts s js s', run acts s = Some (js, s') -> R s s'.
Proof.
  intros Hrefl Htrans Hstep.
  induction acts as [| a acts IH]; cbn; intros s js s' H.
  - injection H as <- <-. apply Hrefl.
  - destruct (exec a s) as [[js1 s1] |] eqn:He; [| done].
    destruct (run acts s1) as [[js2 s2] |] eqn:Hr; [| done].
    injection H as <- <-.
    eapply Htrans; [by eapply Hstep | by eapply IH].
Qed.

(** Unfolds a step into the state it produces. *)
Ltac step_cases H :=
  let url := fresh "url" in
  let job := fresh "job" in
  let w := fresh "w" in
  let jobID := fresh "jobID" in
  let rest := fresh "rest" in
  let tr := fresh "tr" in
  let Ha := fresh "Ha" in
  let Hq := fresh "Hq" in
  let Hd := fresh "Hd" in
  let Hjob := fresh "Hjob" in
  let Hcase := fresh "Hcase" in
  apply exec_cases in H
    as [(url & job & -> & Ha & ->) | (w & jobID & rest & tr & -> & Hq & Hd & ->)];
  [ unfold AddJob in Ha; case_decide; [| done]; injection Ha as <- <-
  | apply doJob_cases in Hd as (job & Hjob & Hcase); destruct Hcase ];
  cbn in *.

Lemma exec_heap_prefix (a : Action) (s s' : State) (js : list Job.t) :
  exec a s = Some (js, s') -> heap s `prefix_of` heap s'.
Proof. intros H. step_cases H; try done. by apply prefix_app_r. Qed.

(** X4: the objects of the store are never changed or removed: an address
    that designates a Response designates the same Response after any
    further execution. *)
Theorem run_store_stable (acts : list Action) (s s' : State)
    (js : list Job.t) (p : ptr) (r : Response.t) :
  run acts s = Some (js, s') ->
  heap s !! p = Some r ->
  heap s' !! p = Some r.
Proof.
  intros Hrun Hp.
  assert (Hpre : heap s `prefix_of` heap s').
  { revert Hrun.
    apply (run_rel (fun s1 s2 => heap s1 `prefix_of` heap s2));
      [done | intros; by etrans | intros; by eapply exec_heap_prefix]. }
  by eapply prefix_lookup_Some.
Qed.

Lemma run_store_stable_witness :
  heap (written (setQueue [] (fetched 0)) 2
          (Job.mk 2 exampleURL "done" (Some 1%nat))
          (<[exampleURL := 1%nat]> (responses (fetched 0)))
          (heap (fetched 0) ++
             [Response.mk exampleURL "par" (2 * time.Hour)]))
    !! 0%nat = Some (Response.mk exampleURL "X" 0).
Proof.
  apply (run_store_stable
           [Work (netCut "par" (2 * time.Hour) (2 * time.Hour))]
           (fetched 0) _ [] 0%nat (Response.mk exampleURL "X" 0));
    reflexivity.
Defined.

(** X5: no Job is ever removed from the registry: an identifier that
    [GetJob] finds is found after any further execution. *)
Theorem run_registry_grows (acts : list Action) (s s' : State)
    (js : list Job.t) (id : Z) :
  run acts s = Some (js, s') ->
  is_Some (GetJob id s) ->
  is_Some (GetJob id s').
Proof.
  intros Hrun. revert id.
  revert Hrun.
  apply (run_rel (fun s1 s2 =>
                    forall id, is_Some (GetJob id s1) ->
                               is_Some (GetJob id s2))); [done | auto |].
  unfold GetJob. intros a s1 js1 s2 H id Hid.
  step_cases H; apply lookup_insert_is_Some'; by right.
Qed.

Lemma run_registry_grows_witness : is_Some (GetJob 1 served).
Proof.
  apply (run_registry_grows [Work (netUp "Y" 6 6)] (fetched 5) served [] 1).
  - reflexivity.
  - by eexists.
Defined.

(** X6: no entry is ever removed from the cache: a URL for which
    [GetResponse] returns a Response has one after any further execution. *)
Theorem run_cache_grows (acts : list Action) (s s' : State)
    (js : list Job.t) (u : string) :
  run acts s = Some (js, s') ->
  is_Some (GetResponse u s) ->
  is_Some (GetResponse u s').
Proof.
  intros Hrun. revert u.
  revert Hrun.
  apply (run_rel (fun s1 s2 =>
                    forall u, is_Some (GetResponse u s1) ->
                              is_Some (GetResponse u s2))); [done | auto |].
  unfold GetResponse. intros a s1 js1 s2 H u Hu.
  step_cases H; try done.
  apply lookup_insert_is_Some'; by right.
Qed.

Lemma run_cache_grows_witness : is_Some (GetResponse exampleURL served).
Proof.
  apply (run_cache_grows [Work (netUp "Y" 6 6)] (fetched 5) served []
           exampleURL).
  - reflexivity.
  - by eexists.
Defined.

(** An invariant of the steps holds at the end of every execution that
    starts where it holds. *)
Lemma run_invariant (P : State -> Prop) :
  (forall a s js s', P s -> exec a s = Some (js, s') -> P s') ->
  forall acts s js s', run acts s = Some (js, s') -> P s -> P s'.
Proof.
  intros Hstep.
  induction acts as [| a acts IH]; cbn; intros s js s' H HP.
  - by injection H as <- <-.
  - destruct (exec a s) as [[js1 s1] |] eqn:He; [| done].
    destruct (run acts s1) as [[js2 s2] |] eqn:Hr; [| done].
    injection H as <- <-.
    eapply IH; [done |]. by eapply Hstep.
Qed.

Lemma fetched_reachable (t : time.Time) : reachable (fetched t).
Proof.
  exists [Submit exampleURL; Work (netUp "X" t t); Submit exampleURL],
    [Job.mk 1 exampleURL "waiting" None; Job.mk 2 exampleURL "waiting" None].
  reflexivity.
Qed.

Lemma served_reachable : reachable served.
Proof.
  exists [Submit exampleURL; Work (netUp "X" 5 5); Submit exampleURL;
          Work (netUp "Y" 6 6)],
    [Job.mk 1 exampleURL "waiting" None; Job.mk 2 exampleURL "waiting" None].
  reflexivity.
Qed.

(** ** The Jobs of the registry *)

Lemma exec_jobsOK (a : Action) (s s' : State) (js : list Job.t) :
  cacheOK s -> jobsOK s -> exec a s = Some (js, s') -> jobsOK s'.
Proof.
  intros Hc Hj H id j Hid.
  step_cases H.
  - destruct (decide (AddInt64 (curJobID s) 1 = id)) as [<- | Hne].
    + rewrite lookup_insert_eq in Hid. injection Hid as <-. cbn.
      split; [done |]. split; [by left | done].
    + rewrite lookup_insert_ne in Hid by done. by apply Hj.
  - destruct (decide (jobID = id)) as [<- | Hne].
    + rewrite lookup_insert_eq in Hid. injection Hid as <-. cbn.
      destruct (Hj _ _ Hjob) as (Hjid & _ & _).
      split; [done |]. split; [right; right; by eauto |].
      intros p0 [= <-]. by apply Hc.
    + rewrite lookup_insert_ne in Hid by done. by apply Hj.
  - destruct (decide (jobID = id)) as [<- | Hne].
    + rewrite lookup_insert_eq in Hid. injection Hid as <-. cbn.
      destruct (Hj _ _ Hjob) as (Hjid & _ & _).
      split; [done |]. split; [right; left; done | done].
    + rewrite lookup_insert_ne in Hid by done. by apply Hj.
  - destruct (decide (jobID = id)) as [<- | Hne].
    + rewrite lookup_insert_eq in Hid. injection Hid as <-. cbn.
      destruct (Hj _ _ Hjob) as (Hjid & _ & _).
      split; [done |]. split; [right; right; by eauto |].
      intros p0 [= <-]. eexists.
      split; [by rewrite lookup_app_r, Nat.sub_diag | done].
    + rewrite lookup_insert_ne in Hid by done.
      destruct (Hj _ _ Hid) as (Hjid & Hs & Hres).
      split; [done |]. split; [done |].
      intros p0 Hp0. destruct (Hres _ Hp0) as (r & Hr & Hu).
      exists r. split; [| done].
      rewrite lookup_app_l; [done | by eapply lookup_lt_Some].
Qed.

Lemma reachable_jobsOK (s : State) : reachable s -> jobsOK s.
Proof.
  intros (acts & js & Hrun).
  refine (proj2 (run_invariant (fun s => inv s /\ jobsOK s) _ acts init js s
                   Hrun _)).
  - intros a s1 js1 s2 [Hinv Hj] He. split.
    + by eapply exec_inv.
    + eapply exec_jobsOK; [exact (proj2 Hinv) | done | done].
  - split; [apply inv_init |]. intros id j Hid. cbn in Hid.
    by rewrite lookup_empty in Hid.
Qed.

(** X7: in every state of an execution, the Job that [GetJob] returns for
    an identifier has that identifier in its ID field. *)
Theorem GetJob_keyed (s : State) (id : Z) (job : Job.t) :
  reachable s ->
  GetJob id s = Some job ->
  Job.ID job = id.
Proof. intros Hr Hid. by apply (reachable_jobsOK s Hr id job). Qed.

Lemma GetJob_keyed_witness :
  Job.ID (Job.mk 2 exampleURL "done - cached" (Some 0%nat)) = 2.
Proof.
  apply (GetJob_keyed served 2
           (Job.mk 2 exampleURL "done - cached" (Some 0%nat))).
  - apply served_reachable.
  - reflexivity.
Defined.

(** X8: in every state of an execution, the result of a Job is an object
    of the store, and the URL of that Response is the URL of the Job. *)
Theorem job_result_url (s : State) (id : Z) (job : Job.t) (p : ptr) :
  reachable s ->
  GetJob id s = Some job ->
  Job.Response job = Some p ->
  exists r, heap s !! p = Some r /\ Response.URL r = Job.URL job.
Proof.
  intros Hr Hid Hp.
  by apply (proj2 (proj2 (reachable_jobsOK s Hr id job Hid))).
Qed.

Lemma job_result_url_witness :
  exists r, heap served !! 0%nat = Some r /\
            Response.URL r =
            Job.URL (Job.mk 2 exampleURL "done - cached" (Some 0%nat)).
Proof.
  apply (job_result_url served 2
           (Job.mk 2 exampleURL "done - cached" (Some 0%nat)) 0%nat).
  - apply served_reachable.
  - reflexivity.
  - reflexivity.
Defined.

(** ** The channel *)



(** X11: in every state of an execution the channel holds at most 1000
    identifiers. *)
Theorem queue_bounded (s : State) :
  reachable s -> (length (jobQueue s) <= jobQueueCap)%nat.
Proof.
  intros (acts & js & Hrun).
  refine (run_invariant
            (fun s => (length (jobQueue s) <= jobQueueCap)%nat) _
            acts init js s Hrun _).
  - intros a s1 js1 s2 Hle He.
    step_cases He.
    + rewrite length_app. cbn. lia.
    + rewrite Hq in Hle. cbn in Hle. lia.
    + rewrite Hq in Hle. cbn in Hle. lia.
    + rewrite Hq in Hle. cbn in Hle. lia.
  - cbn. unfold jobQueueCap. lia.
Qed.

Lemma queue_bounded_witness :
  (length (jobQueue served) <= jobQueueCap)%nat.
Proof. apply (queue_bounded served). apply served_reachable. Defined.

(** ** Two jobs for one URL *)

(** X12: when a job has been fetched and its body stored, a second job
    for the same URL that is processed less than one hour after the first
    Response was stamped makes no GET, becomes [done - cached], and gets
    the very Response object of the first job as its result. *)
Theorem second_job_shares_response (w1 w2 : World) (s : State)
    (id1 id2 : Z) (job1 job2 : Job.t) (body : string) (readErr : bool) :
  id1 <> id2 ->
  jobs s !! id1 = Some job1 ->
  jobs s !! id2 = Some job2 ->
  Job.URL job2 = Job.URL job1 ->
  mustFetch w1 s (Job.URL job1) = true ->
  httpGet w1 (Job.URL job1) = GetOk body readErr ->
  nowCheck w2 - nowFetch w1 < time.Hour ->
  exists s1 tr1 s2 tr2 p,
    doJob w1 id1 s = Returned s1 tr1 /\
    doJob w2 id2 s1 = Returned s2 tr2 /\
    gets tr1 = [Job.URL job1] /\
    gets tr2 = [] /\
    heap s2 !! p = Some (Response.mk (Job.URL job1) body (nowFetch w1)) /\
    jobs s2 !! id1 =
      Some (Job.mk (Job.ID job1) (Job.URL job1) "done" (Some p)) /\
    jobs s2 !! id2 =
      Some (Job.mk (Job.ID job2) (Job.URL job2) "done - cached" (Some p)).
Proof.
  intros Hne Hj1 Hj2 Hurl Hm Hget Hage.
  set (p := length (heap s)).
  set (R := Response.mk (Job.URL job1) body (nowFetch w1)).
  set (s1 := written s id1
               (Job.mk (Job.ID job1) (Job.URL job1) "done" (Some p))
               (<[Job.URL job1 := p]> (responses s)) (heap s ++ [R])).
  assert (Hd1 : exists tr1, doJob w1 id1 s = Returned s1 tr1 /\
                            gets tr1 = [Job.URL job1]).
  { rewrite (doJob_mustFetch w1 id1 s job1 Hj1 Hm).
    rewrite (doFetch_GetOk w1 id1 s job1 Hj1 body readErr Hget).
    eexists. split; [reflexivity |]. by destruct readErr. }
  destruct Hd1 as (tr1 & Hd1 & Hg1).
  assert (Hj2' : jobs s1 !! id2 = Some job2)
    by (cbn; by rewrite lookup_insert_ne).
  assert (Hp : responses s1 !! Job.URL job2 = Some p)
    by (cbn; rewrite Hurl; apply lookup_insert_eq).
  assert (HR : heap s1 !! p = Some R)
    by (cbn; unfold p; by rewrite lookup_app_r, Nat.sub_diag).
  assert (Hf : fresh w2 R = true) by (by apply fresh_true).
  pose proof (doJob_hit w2 id2 s1 job2 Hj2' p R Hp HR Hf) as Hd2.
  eexists s1, tr1, _, _, p.
  split; [exact Hd1 |]. split; [exact Hd2 |].
  split; [exact Hg1 |]. split; [reflexivity |].
  split; [exact HR |].
  split.
  - cbn. rewrite lookup_insert_ne by done. apply lookup_insert_eq.
  - apply lookup_insert_eq.
Qed.

Lemma submittedTwice_run :
  run [Submit exampleURL; Submit exampleURL] init =
  Some ([Job.mk 1 exampleURL "waiting" None;
         Job.mk 2 exampleURL "waiting" None], submittedTwice).
Proof. reflexivity. Qed.

Lemma second_job_shares_response_witness :
  exists s1 tr1 s2 tr2 p,
    doJob (netUp "X" 5 5) 1 submittedTwice = Returned s1 tr1 /\
    doJob (netUp "Y" 6 6) 2 s1 = Returned s2 tr2 /\
    gets tr1 = [exampleURL] /\
    gets tr2 = [] /\
    heap s2 !! p = Some (Response.mk exampleURL "X" 5) /\
    jobs s2 !! 1 = Some (Job.mk 1 exampleURL "done" (Some p)) /\
    jobs s2 !! 2 = Some (Job.mk 2 exampleURL "done - cached" (Some p)).
Proof.
  apply (second_job_shares_response (netUp "X" 5 5) (netUp "Y" 6 6)
           submittedTwice 1 2
           (Job.mk 1 exampleURL "waiting" None)
           (Job.mk 2 exampleURL "waiting" None) "X" false);
    try reflexivity.
  discriminate.
Defined.

(** ** The listing of the cache *)

(** X14: in every state of an execution [GetResponses] lists exactly the
    Responses that [GetResponse] returns for some URL, and lists none of
    them twice: two URLs never share one cached object. *)
Theorem GetResponses_distinct (s : State) :
  reachable s ->
  NoDup (GetResponses s) /\
  forall p, p ∈ GetResponses s <-> exists u, GetResponse u s = Some p.
Proof.
  intros Hr. pose proof (proj2 (reachable_inv s Hr)) as Hc.
  unfold GetResponses, GetResponse. split.
  - apply NoDup_fmap_2_strong; [| apply NoDup_map_to_list].
    intros [u1 p1] [u2 p2] H1 H2 Heq. cbn in Heq. subst p2.
    apply elem_of_map_to_list in H1, H2.
    destruct (Hc _ _ H1) as (r1 & Hr1 & Hu1).
    destruct (Hc _ _ H2) as (r2 & Hr2 & Hu2).
    rewrite Hr1 in Hr2. injection Hr2 as <-. by rewrite <- Hu1, <- Hu2.
  - intros p. rewrite list_elem_of_fmap. split.
    + intros ([u p'] & -> & Hin). exists u. by apply elem_of_map_to_list.
    + intros (u & Hu). exists (u, p). split; [done |].
      by apply elem_of_map_to_list.
Qed.

Lemma GetResponses_distinct_witness :
  NoDup (GetResponses served) /\
  forall p, p ∈ GetResponses served <->
            exists u, GetResponse u served = Some p.
Proof. apply (GetResponses_distinct served). apply served_reachable. Defined.

(** ** The first version against the current one *)

(** X15: for a registered job whose URL the cache does not serve, and a
    GET and a read of the body that both succeed, the first version of
    [doJob] and the current one end in the same state with the same trace. *)
Theorem V0_doJob_agrees_on_success (w : World) (s : State) (jobID : Z)
    (job : Job.t) (body : string) :
  jobs s !! jobID = Some job ->
  mustFetch w s (Job.URL job) = true ->
  httpGet w (Job.URL job) = GetOk body false ->
  exists s' tr,
    doJob w jobID s = Returned s' tr /\
    V0.doJob w jobID s = V0.Returned s' tr.
Proof.
  intros Hjob Hm Hget.
  rewrite (doJob_mustFetch w jobID s job Hjob Hm).
  unfold V0.doJob, doFetch. rewrite Hjob, Hget.
  eexists _, _. split; reflexivity.
Qed.

Lemma V0_doJob_agrees_on_success_witness :
  exists s' tr,
    doJob (netUp "X" 7 9) 1 (setQueue [] submitted) = Returned s' tr /\
    V0.doJob (netUp "X" 7 9) 1 (setQueue [] submitted) = V0.Returned s' tr.
Proof.
  apply (V0_doJob_agrees_on_success (netUp "X" 7 9) (setQueue [] submitted) 1
           (Job.mk 1 exampleURL "waiting" None) "X"); reflexivity.
Defined.

(** ** Queued Jobs *)

Lemma exec_queueOK (a : Action) (s s' : State) (js : list Job.t) :
  queueOK s ->
  curJobID s + Z.of_nat (length js) <= maxInt64 ->
  exec a s = Some (js, s') ->
  queueOK s' /\
  curJobID s' = curJobID s + Z.of_nat (length js) /\
  (forall id job, jobs s !! id = Some job -> id ∉ jobQueue s ->
                  jobs s' !! id = Some job /\ id ∉ jobQueue s').
Proof.
  intros (H0 & Hnd & Hw & Hdom) Hmax He.
  assert (Hwork : forall jobID rest job (j' : Job.t) cache h,
    jobQueue s = jobID :: rest ->
    jobs s !! jobID = Some job ->
    let s1 := written (setQueue rest s) jobID j' cache h in
    queueOK s1 /\
    curJobID s1 = curJobID s + 0 /\
    (forall id job, jobs s !! id = Some job -> id ∉ jobQueue s ->
                    jobs s1 !! id = Some job /\ id ∉ jobQueue s1)).
  { intros jobID rest job j' cache h Hq Hjob s1. subst s1.
    unfold queueOK, written. cbn.
    rewrite Hq in Hnd, Hw. apply NoDup_cons in Hnd as [Hnin Hnd].
    split; [| split; [lia |]].
    - split; [done |]. split; [done |]. split.
      + intros id Hid.
        destruct (Hw id) as (j & Hj & Hs & Hr); [by right |].
        exists j. split; [| done].
        rewrite lookup_insert_ne; [done |]. by intros <-.
      + intros id Hid.
        apply lookup_insert_is_Some in Hid as [<- | [_ Hid]]; by eauto.
    - intros id j Hid Hnq. rewrite Hq in Hnq.
      apply not_elem_of_cons in Hnq as [Hne Hnq].
      split; [| done]. by rewrite lookup_insert_ne. }
  step_cases He.
  - assert (Hadd : AddInt64 (curJobID s) 1 = curJobID s + 1)
      by (apply AddInt64_small; lia).
    rewrite !Hadd. clear Hadd.
    assert (Hfresh : jobs s !! (curJobID s + 1) = None).
    { destruct (jobs s !! (curJobID s + 1)) eqn:E; [| done].
      assert (is_Some (jobs s !! (curJobID s + 1))) as Hs by by eexists.
      apply Hdom in Hs. lia. }
    assert (Hnq : curJobID s + 1 ∉ jobQueue s).
    { intros Hin. destruct (Hw _ Hin) as (j & Hj & _). congruence. }
    unfold queueOK. cbn.
    split; [| split; [lia |]].
    + split; [lia |]. split; [| split].
      * apply NoDup_app. split; [done |]. split; [| apply NoDup_singleton].
        intros id Hid Hin. apply list_elem_of_singleton in Hin as ->. done.
      * intros id Hid. apply elem_of_app in Hid as [Hid | Hid].
        -- destruct (Hw _ Hid) as (j & Hj & Hs & Hr).
           exists j. split; [| done].
           rewrite lookup_insert_ne; [done |]. intros <-. done.
        -- apply list_elem_of_singleton in Hid as ->.
           eexists. by rewrite lookup_insert_eq.
      * intros id Hid.
        apply lookup_insert_is_Some in Hid as [<- | [_ Hid]]; [lia |].
        apply Hdom in Hid. lia.
    + intros id j Hid Hnin.
      assert (id <> curJobID s + 1) by (intros ->; congruence).
      split; [by rewrite lookup_insert_ne |].
      rewrite elem_of_app, list_elem_of_singleton. tauto.
  - by apply (Hwork jobID rest job).
  - by apply (Hwork jobID rest job).
  - by apply (Hwork jobID rest job).
Qed.

Lemma run_queueOK (acts : list Action) :
  forall (s s' : State) (js : list Job.t),
    run acts s = Some (js, s') ->
    queueOK s ->
    curJobID s + Z.of_nat (length js) <= maxInt64 ->
    queueOK s' /\
    curJobID s' = curJobID s + Z.of_nat (length js) /\
    (forall id job, jobs s !! id = Some job -> id ∉ jobQueue s ->
                    jobs s' !! id = Some job /\ id ∉ jobQueue s').
Proof.
  induction acts as [| a acts IH]; cbn [run]; intros s s' js H Hok Hmax.
  - injection H as <- <-. cbn. split; [done |]. split; [lia | done].
  - destruct (exec a s) as [[js1 s1] |] eqn:He; [| done].
    destruct (run acts s1) as [[js2 s2] |] eqn:Hr; [| done].
    injection H as <- <-. rewrite length_app in Hmax |- *.
    destruct (exec_queueOK a s s1 js1 Hok) as (Hok1 & Hc1 & Hf1);
      [lia | done |].
    destruct (IH s1 s2 js2 Hr Hok1) as (Hok2 & Hc2 & Hf2); [lia |].
    split; [done |]. split; [lia |].
    intros id job Hid Hnq.
    destruct (Hf1 id job Hid Hnq) as [Hid1 Hnq1]. by apply Hf2.
Qed.

Lemma queueOK_init : queueOK init.
Proof.
  split; [done |]. split; [constructor |]. split.
  - intros id Hid. cbn in Hid. by apply elem_of_nil in Hid.
  - intros id [j Hj]. cbn in Hj. by rewrite lookup_empty in Hj.
Qed.

(** X16: as long as at most [2^63 - 1] Jobs have been submitted, no
    identifier is in the channel twice, and a Job whose identifier is in the
    channel is [waiting] with a nil result: nothing touches a Job before a
    worker has received its identifier. *)
Theorem queued_jobs_waiting (acts : list Action) (js : list Job.t)
    (s : State) (id : Z) :
  run acts init = Some (js, s) ->
  Z.of_nat (length js) <= maxInt64 ->
  id ∈ jobQueue s ->
  NoDup (jobQueue s) /\
  exists job, GetJob id s = Some job /\
              Job.Status job = "waiting" /\
              Job.Response job = None.
Proof.
  intros Hrun Hlen Hid.
  destruct (run_queueOK acts init s js Hrun queueOK_init)
    as ((_ & Hnd & Hw & _) & _ & _); [cbn; lia |].
  split; [done |]. by apply Hw.
Qed.

Lemma queued_jobs_waiting_witness :
  NoDup (jobQueue (fetched 5)) /\
  exists job, GetJob 2 (fetched 5) = Some job /\
              Job.Status job = "waiting" /\
              Job.Response job = None.
Proof.
  apply (queued_jobs_waiting
           [Submit exampleURL; Work (netUp "X" 5 5); Submit exampleURL]
           [Job.mk 1 exampleURL "waiting" None;
            Job.mk 2 exampleURL "waiting" None]
           (fetched 5) 2).
  - reflexivity.
  - unfold maxInt64. cbn. lia.
  - cbn. apply list_elem_of_singleton. reflexivity.
Defined.

(** ** [AddJob] step by step *)

(** The four kinds of steps of [Sys]. *)
Lemma sstep_cases (a : Step) (sys sys' : Sys) (js : list Job.t) :
  sstep a sys = Some (js, sys') ->
  (exists url,
      a = SRegister url /\ call sys = None /\ js = [] /\
      sys' = mkSys (AddJob_register url (st sys)).2
                   (Some ((AddJob_register url (st sys)).1, false))) \/
  (exists jobID s1,
      a = SSend /\ call sys = Some (jobID, false) /\ js = [] /\
      AddJob_send jobID (st sys) = Some s1 /\
      sys' = mkSys s1 (Some (jobID, true))) \/
  (exists jobID job,
      a = SReturn /\ call sys = Some (jobID, true) /\ js = [job] /\
      AddJob_return jobID (st sys) = Some job /\
      sys' = mkSys (st sys) None) \/
  (exists w js1 s1,
      a = SWork w /\ js = [] /\
      exec (Work w) (st sys) = Some (js1, s1) /\
      sys' = mkSys s1 (call sys)).
Proof.
  unfold sstep. intros H.
  destruct a as [url | | | w].
  - destruct (call sys) as [[jobID b] |] eqn:Hc; [done |].
    injection H as <- <-. left. by exists url.
  - destruct (call sys) as [[jobID [|]] |] eqn:Hc; try done.
    destruct (AddJob_send jobID (st sys)) as [s1 |] eqn:Hs; [| done].
    injection H as <- <-. right; left. by exists jobID, s1.
  - destruct (call sys) as [[jobID [|]] |] eqn:Hc; try done.
    destruct (AddJob_return jobID (st sys)) as [job |] eqn:Hr; [| done].
    injection H as <- <-. right; right; left. by exists jobID, job.
  - right; right; right.
    assert (Hw : exists js1 s1,
               exec (Work w) (st sys) = Some (js1, s1) /\
               js = [] /\ sys' = mkSys s1 (call sys)).
    { destruct (call sys) as [[jobID b] |];
        destruct (exec (Work w) (st sys)) as [[js1 s1] |]; try done;
        injection H as <- <-; by exists js1, s1. }
    destruct Hw as (js1 & s1 & He & -> & ->). by exists w, js1, s1.
Qed.




(** ** The identifiers of the returned Jobs *)



(** Unfolds a round of a worker into the state it produces. *)
Ltac work_cases H :=
  let url := fresh "url" in
  let job := fresh "job" in
  let w := fresh "w" in
  let jobID := fresh "jobID" in
  let rest := fresh "rest" in
  let tr := fresh "tr" in
  let Heq := fresh "Heq" in
  let Hq := fresh "Hq" in
  let Hd := fresh "Hd" in
  let Hjob := fresh "Hjob" in
  let Hcase := fresh "Hcase" in
  apply exec_cases in H
    as [(url & job & Heq & _) | (w & jobID & rest & tr & Heq & Hq & Hd & ->)];
  [ discriminate Heq
  | clear Heq; apply doJob_cases in Hd as (job & Hjob & Hcase);
    destruct Hcase ];
  cbn in *.

(** A round of a worker keeps every Job of the registry, with its ID and
    its URL. *)
Lemma exec_Work_jobs (w : World) (s s' : State) (js : list Job.t) :
  exec (Work w) s = Some (js, s') ->
  forall id job,
    jobs s !! id = Some job ->
    exists job', jobs s' !! id = Some job' /\
                 Job.ID job' = Job.ID job /\ Job.URL job' = Job.URL job.
Proof.
  intros H id j Hid.
  work_cases H;
    (destruct (decide (jobID = id)) as [<- | Hne];
     [ rewrite Hjob in Hid; injection Hid as <-;
       eexists; by rewrite lookup_insert_eq
     | exists j; by rewrite lookup_insert_ne ]).
Qed.

Lemma exec_Work_keyed (w : World) (s s' : State) (js : list Job.t) :
  exec (Work w) s = Some (js, s') -> keyed s -> keyed s'.
Proof.
  intros H Hk id j Hid.
  work_cases H;
    (destruct (decide (jobID = id)) as [<- | Hne];
     [ rewrite lookup_insert_eq in Hid; injection Hid as <-; cbn;
       by apply Hk
     | rewrite lookup_insert_ne in Hid by done; by apply Hk ]).
Qed.


Lemma AddJob_send_jobs (jobID : Z) (s s1 : State) :
  AddJob_send jobID s = Some s1 ->
  exists job,
    jobs s !! jobID = Some job /\
    (length (jobQueue s) < jobQueueCap)%nat /\
    s1 = setQueue (jobQueue s ++ [Job.ID job]) s.
Proof.
  unfold AddJob_send. intros H.
  destruct (jobs s !! jobID) as [job |]; [| done].
  case_decide; [| done]. injection H as <-. by exists job.
Qed.



(** ** The registry while calls and rounds alternate *)

Lemma finalStatus_not_waiting (status : string) :
  finalStatus status -> status <> "waiting".
Proof. intros [-> | [-> | ->]]; discriminate. Qed.

(** One step of [Sys] below the wrap-around: the invariant, the counter,
    the Jobs that are final, the URLs, the returned Job, and the count of
    the calls. *)
Lemma sstep_sysOK (a : Step) (sys sys' : Sys) (js : list Job.t) :
  sysOK sys ->
  curJobID (st sys) + Z.of_nat (registers [a]) <= maxInt64 ->
  sstep a sys = Some (js, sys') ->
  sysOK sys' /\
  curJobID (st sys') = curJobID (st sys) + Z.of_nat (registers [a]) /\
  (forall id job, jobs (st sys) !! id = Some job ->
                  finalStatus (Job.Status job) ->
                  jobs (st sys') !! id = Some job) /\
  (forall id job, jobs (st sys) !! id = Some job ->
                  exists job', jobs (st sys') !! id = Some job' /\
                               Job.URL job' = Job.URL job) /\
  (forall job, job ∈ js -> jobs (st sys') !! Job.ID job = Some job) /\
  (length js + inProgress sys' = registers [a] + inProgress sys)%nat.
Proof.
  intros (Hq & Hfull & Hk & Hcall) Hmax Hs.
  pose proof Hq as (H0 & Hnd & Hw & Hdom).
  assert (Hfinal : forall id job,
             jobs (st sys) !! id = Some job ->
             finalStatus (Job.Status job) -> id ∉ jobQueue (st sys)).
  { intros id job Hid Hf Hin. destruct (Hw id Hin) as (j & Hj & Hs' & _).
    rewrite Hid in Hj. injection Hj as <-.
    by apply finalStatus_not_waiting in Hf. }
  apply sstep_cases in Hs
    as [(url & -> & Hc & -> & ->)
       | [(jobID & s1 & -> & Hc & -> & Hsend & ->)
         | [(jobID & job & -> & Hc & -> & Hret & ->)
           | (w & js1 & s1 & -> & -> & He & ->)]]];
    rewrite Hc in Hcall || idtac; unfold inProgress; cbn [registers] in *.
  - (* registration *)
    rewrite Hc. cbn [st call AddJob_register fst snd].
    assert (Hadd : AddInt64 (curJobID (st sys)) 1 = curJobID (st sys) + 1)
      by (apply AddInt64_small; lia).
    rewrite !Hadd. clear Hadd.
    set (c := curJobID (st sys)) in *.
    assert (Hfresh : forall id, is_Some (jobs (st sys) !! id) -> id <> c + 1).
    { intros id Hid ->. apply Hdom in Hid. lia. }
    assert (Hnq : c + 1 ∉ jobQueue (st sys)).
    { intros Hin. destruct (Hw _ Hin) as (j & Hj & _).
      by apply (Hfresh (c + 1)); [eexists |]. }
    split; [| split; [cbn; lia |]].
    + split; [| split; [| split]]; unfold queueOK; cbn.
      * split; [lia |]. split; [done |]. split.
        -- intros id Hid. destruct (Hw _ Hid) as (j & Hj & Hst & Hr).
           exists j. split; [| done]. rewrite lookup_insert_ne; [done |].
           intros <-. by apply Hnq.
        -- intros id Hid.
           apply lookup_insert_is_Some in Hid as [<- | [_ Hid]]; [lia |].
           apply Hdom in Hid. lia.
      * intros id Hid. apply lookup_insert_is_Some'.
        destruct (decide (id = c + 1)) as [-> | Hne]; [by left |].
        right. apply Hfull. lia.
      * intros id j Hid.
        destruct (decide (c + 1 = id)) as [<- | Hne].
        -- rewrite lookup_insert_eq in Hid. by injection Hid as <-.
        -- rewrite lookup_insert_ne in Hid by done. by apply Hk.
      * split; [done |]. exists url. apply lookup_insert_eq.
    + cbn. split; [| split; [| split]].
      * intros id j Hid _. rewrite lookup_insert_ne; [done |].
        intros <-. by apply (Hfresh (c + 1)); [eexists |].
      * intros id j Hid. exists j. split; [| done].
        rewrite lookup_insert_ne; [done |].
        intros <-. by apply (Hfresh (c + 1)); [eexists |].
      * intros j Hj. by apply elem_of_nil in Hj.
      * done.
  - (* send *)
    destruct Hcall as [Hnq (url & Hjob)].
    apply AddJob_send_jobs in Hsend as (j & Hj & _ & ->).
    rewrite Hjob in Hj. injection Hj as <-. cbn.
    split; [| split; [lia |]].
    + split; [| split; [done | split; [done | by eexists]]].
      unfold queueOK. cbn.
      split; [done |]. split; [| split; [| done]].
      * apply NoDup_app. split; [done |].
        split; [| apply NoDup_singleton].
        intros id Hid Hin. apply list_elem_of_singleton in Hin as ->. done.
      * intros id Hid. apply elem_of_app in Hid as [Hid | Hid].
        -- by apply Hw.
        -- apply list_elem_of_singleton in Hid as ->. by eexists.
    + split; [by auto |]. split; [by eauto |].
      split; [| by rewrite Hc].
      intros j Hj. by apply elem_of_nil in Hj.
  - (* return *)
    unfold AddJob_return in Hret. cbn.
    split; [| split; [lia |]].
    + by split; [| split; [| split]].
    + split; [by auto |]. split; [by eauto |].
      split; [| by rewrite Hc].
      intros j Hj. apply list_elem_of_singleton in Hj as ->.
      by rewrite (Hk _ _ Hret).
  - (* a round of a worker *)
    destruct (exec_queueOK (Work w) (st sys) s1 js1 Hq) as (Hq1 & Hc1 & Hf1);
      [| done |].
    { destruct (exec_Work_curJobID _ _ _ _ He) as [-> _]. cbn. lia. }
    destruct (exec_Work_curJobID _ _ _ _ He) as [-> Hcur].
    unfold sysOK. cbn.
    split; [| split; [lia |]].
    + split; [done |]. split; [| split].
      * intros id Hid. rewrite Hcur in Hid.
        destruct (Hfull id Hid) as [j Hj].
        destruct (exec_Work_jobs _ _ _ _ He id j Hj) as (j' & Hj' & _).
        by eexists.
      * by eapply exec_Work_keyed.
      * destruct (call sys) as [[jobID [|]] |]; [| | done].
        -- destruct Hcall as [j Hj].
           destruct (exec_Work_jobs _ _ _ _ He jobID j Hj) as (j' & Hj' & _).
           by eexists.
        -- destruct Hcall as [Hnq (url & Hjob)].
           destruct (Hf1 _ _ Hjob Hnq) as [Hjob1 Hnq1]. by eauto.
    + split; [| split; [| split; [| done]]].
      * intros id j Hid Hf. by apply (Hf1 id j Hid), (Hfinal id j).
      * intros id j Hid.
        destruct (exec_Work_jobs _ _ _ _ He id j Hid) as (j' & Hj' & _ & Hu).
        by eauto.
      * intros j Hj. by apply elem_of_nil in Hj.
Qed.

Lemma sysOK_sinit : sysOK sinit.
Proof.
  split; [apply queueOK_init |]. split; [| split; [| done]].
  - intros id Hid. cbn in Hid. lia.
  - intros id j Hid. cbn in Hid. by rewrite lookup_empty in Hid.
Qed.

Lemma srun_sysOK (steps : list Step) :
  forall (sys sys' : Sys) (js : list Job.t),
    srun steps sys = Some (js, sys') ->
    sysOK sys ->
    curJobID (st sys) + Z.of_nat (registers steps) <= maxInt64 ->
    sysOK sys' /\
    curJobID (st sys') = curJobID (st sys) + Z.of_nat (registers steps) /\
    (forall id job, jobs (st sys) !! id = Some job ->
                    finalStatus (Job.Status job) ->
                    jobs (st sys') !! id = Some job) /\
    (forall id job, jobs (st sys) !! id = Some job ->
                    exists job', jobs (st sys') !! id = Some job' /\
                                 Job.URL job' = Job.URL job) /\
    (forall job0, job0 ∈ js ->
                  exists job', jobs (st sys') !! Job.ID job0 = Some job' /\
                               Job.URL job' = Job.URL job0) /\
    (length js + inProgress sys' = registers steps + inProgress sys)%nat.
Proof.
  induction steps as [| a steps IH]; cbn [srun]; intros sys sys' js H Hok Hmax.
  - injection H as <- <-. cbn.
    split; [done |]. split; [lia |]. split; [done |]. split; [by eauto |].
    split; [| done]. intros j Hj. by apply elem_of_nil in Hj.
  - destruct (sstep a sys) as [[js1 sys1] |] eqn:Hs; [| done].
    destruct (srun steps sys1) as [[js2 sys2] |] eqn:Hr; [| done].
    injection H as <- <-.
    assert (Hreg : registers (a :: steps)
                   = (registers [a] + registers steps)%nat)
      by (by destruct a).
    rewrite Hreg in Hmax |- *.
    destruct (sstep_sysOK a sys sys1 js1 Hok) as (Hok1 & Hc1 & HF1 & HU1 & HR1 & Hn1);
      [lia | done |].
    destruct (IH sys1 sys2 js2 Hr Hok1) as (Hok2 & Hc2 & HF2 & HU2 & HK2 & Hn2);
      [lia |].
    split; [done |]. split; [lia |]. split; [| split; [| split]].
    + intros id j Hid Hf. apply HF2; [by apply HF1 | done].
    + intros id j Hid. destruct (HU1 id j Hid) as (j1 & Hj1 & Hu1).
      destruct (HU2 id j1 Hj1) as (j2 & Hj2 & Hu2).
      exists j2. split; [done | congruence].
    + intros j0 Hj0. apply elem_of_app in Hj0 as [Hj0 | Hj0]; [| by apply HK2].
      destruct (HU2 _ _ (HR1 j0 Hj0)) as (j2 & Hj2 & Hu2). by eauto.
    + rewrite length_app. lia.
Qed.






(** ** The listing of the registry *)

(** X13: [GetJobs] lists exactly the Jobs that [GetJob] returns for some
    identifier. As long as at most [2^63 - 1] calls of [AddJob] have
    registered, it lists one Job for each of them, whether the call has
    returned or is still in progress, and for every returned Job it lists a
    Job with the same ID and the same URL. *)
Theorem GetJobs_one_per_registration (steps : list Step) (js : list Job.t)
    (sys : Sys) :
  srun steps sinit = Some (js, sys) ->
  Z.of_nat (registers steps) <= maxInt64 ->
  length (GetJobs (st sys)) = registers steps /\
  registers steps = (length js + inProgress sys)%nat /\
  (forall job, job ∈ GetJobs (st sys) <->
               exists id, GetJob id (st sys) = Some job) /\
  (forall job0, job0 ∈ js ->
                exists job, job ∈ GetJobs (st sys) /\
                            Job.ID job = Job.ID job0 /\
                            Job.URL job = Job.URL job0).
Proof.
  intros Hrun Hreg.
  assert (Hmem : forall job,
             job ∈ GetJobs (st sys) <->
             exists id, GetJob id (st sys) = Some job).
  { intros job. unfold GetJobs, GetJob. rewrite list_elem_of_fmap. split.
    - intros ([id job'] & -> & Hin). exists id.
      by apply elem_of_map_to_list.
    - intros (id & Hid). exists (id, job). split; [done |].
      by apply elem_of_map_to_list. }
  destruct (srun_sysOK steps sinit sys js Hrun sysOK_sinit)
    as (((_ & _ & _ & Hdom) & Hfull & Hk & _) & Hc & _ & _ & HK & Hn);
    [cbn; lia |].
  cbn in Hc, Hn.
  split; [| split; [lia | split; [exact Hmem |]]].
  - assert (Hd : dom (jobs (st sys)) =
                 (list_to_set (seqZ 1 (Z.of_nat (registers steps)))
                  : gset Z)).
    { apply set_eq. intros id.
      rewrite elem_of_dom, elem_of_list_to_set, elem_of_seqZ. split.
      - intros Hid. apply Hdom in Hid. lia.
      - intros Hid. apply Hfull. lia. }
    unfold GetJobs.
    rewrite length_fmap, length_map_to_list, <- (size_dom (D := gset Z)), Hd.
    rewrite size_list_to_set by apply NoDup_seqZ.
    rewrite length_seqZ. lia.
  - intros job0 Hj0. destruct (HK job0 Hj0) as (job' & Hj' & Hu').
    exists job'. split; [apply Hmem; by eexists |].
    split; [by apply Hk | done].
Qed.

Lemma GetJobs_one_per_registration_witness :
  length (GetJobs (AddJob_register exampleURL (fetched 5)).2) = 3%nat.
Proof.
  pose proof
    (GetJobs_one_per_registration
       [SRegister exampleURL; SSend; SWork (netUp "X" 5 5); SReturn;
        SRegister exampleURL; SSend; SReturn; SRegister exampleURL]
       [Job.mk 1 exampleURL "done" (Some 0%nat);
        Job.mk 2 exampleURL "waiting" None]
       (mkSys (AddJob_register exampleURL (fetched 5)).2 (Some (3, false)))
       eq_refl) as H.
  destruct H as (Hl & _).
  - unfold maxInt64. cbn. lia.
  - exact Hl.
Defined.

(** ** Finished Jobs *)

(** X17: as long as at most [2^63 - 1] calls of [AddJob] have registered,
    a Job whose status is [done], [done - cached] or the error of the GET is
    final: [GetJob] returns the same record, with the same status and the
    same result, after any further steps of [AddJob] and rounds of
    workers. *)
Theorem final_job_stays (steps1 steps2 : list Step) (js1 js2 : list Job.t)
    (sys sys' : Sys) (id : Z) (job : Job.t) :
  srun steps1 sinit = Some (js1, sys) ->
  srun steps2 sys = Some (js2, sys') ->
  Z.of_nat (registers steps1) + Z.of_nat (registers steps2) <= maxInt64 ->
  GetJob id (st sys) = Some job ->
  finalStatus (Job.Status job) ->
  GetJob id (st sys') = Some job.
Proof.
  intros Hrun1 Hrun2 Hreg Hid Hf.
  destruct (srun_sysOK steps1 sinit sys js1 Hrun1 sysOK_sinit)
    as (Hok & Hc & _); [cbn; lia |].
  cbn in Hc.
  destruct (srun_sysOK steps2 sys sys' js2 Hrun2 Hok) as (_ & _ & HF & _);
    [lia |].
  by apply HF.
Qed.

Lemma final_job_stays_witness :
  GetJob 1 (AddJob_register exampleURL (fetched 5)).2
  = Some (Job.mk 1 exampleURL "done" (Some 0%nat)).
Proof.
  apply (final_job_stays
           [SRegister exampleURL; SSend; SWork (netUp "X" 5 5)]
           [SReturn; SRegister exampleURL; SSend; SReturn;
            SRegister exampleURL]
           []
           [Job.mk 1 exampleURL "done" (Some 0%nat);
            Job.mk 2 exampleURL "waiting" None]
           (mkSys (mkState [] {[ 1 := Job.mk 1 exampleURL "done" (Some 0%nat) ]}
                           {[ exampleURL := 0%nat ]} 1
                           [Response.mk exampleURL "X" 5])
                  (Some (1, true)))
           (mkSys (AddJob_register exampleURL (fetched 5)).2
                  (Some (3, false)))
           1).
  - reflexivity.
  - reflexivity.
  - unfold maxInt64. cbn. lia.
  - reflexivity.
  - left. reflexivity.
Defined.
